(** * AppFolio → Supabase property sync: model of [sync_appfolio_properties.py]

    The script fetches the property roster of the property-management API
    and the rows of the [properties] table, and issues one HTTP write per
    difference: a POST for a property the table lacks, a PATCH of the
    [active] flag for a property that came back or went away.

    The embedding follows the script function by function.  Python values
    are a small sum type, the [dict] built by the store reader is an
    insertion-ordered association list, the [set] of seen ids is a [gset],
    and the network is a transition function on an abstract world. *)

From Stdlib Require Import ZArith String Ascii List Bool Lia.
From stdpp Require Import base decidable option list gmap strings pretty.

Import ListNotations.
Set Warnings "-clear-no-such-hyp".
Local Open Scope string_scope.
Local Open Scope list_scope.

(** ** Python values and strings *)

(** The values a field of a decoded response holds here: JSON null,
    booleans, integers and strings (floats, arrays and objects are left
    out).  Characters of a [string] stand for code points below 256. *)
Inductive pyval : Type :=
| PNone
| PBool (b : bool)
| PInt (z : Z)
| PStr (s : string).

(** [str(v)] *)
Definition py_str (v : pyval) : string :=
  match v with
  | PNone => "None"
  | PBool true => "True"
  | PBool false => "False"
  | PInt z => pretty z
  | PStr s => s
  end.

(** [c.isspace()] for a code point below 256. *)
Definition py_isspace (c : ascii) : bool :=
  let n := nat_of_ascii c in
  (((9 <=? n) && (n <=? 13)) || ((28 <=? n) && (n <=? 32))
   || (n =? 133) || (n =? 160))%nat.

Fixpoint lstrip (s : string) : string :=
  match s with
  | EmptyString => EmptyString
  | String c s' => if py_isspace c then lstrip s' else s
  end.

Fixpoint rstrip (s : string) : string :=
  match s with
  | EmptyString => EmptyString
  | String c s' =>
      match rstrip s' with
      | EmptyString => if py_isspace c then EmptyString else String c EmptyString
      | t => String c t
      end
  end.

(** [s.strip()] *)
Definition strip (s : string) : string := rstrip (lstrip s).

(** Truth value of a [str]: only the empty string is falsy. *)
Definition truthy (s : string) : bool := negb (String.eqb s "").

(** ** Insertion-ordered dictionaries with [str] keys *)

Module Dict.
Section Defs.
Context {V : Type}.

Definition t := list (string * V).

Definition empty : t := [].

(** [d.get(k)] *)
Fixpoint get (k : string) (d : t) : option V :=
  match d with
  | [] => None
  | (k', v) :: d' => if String.eqb k k' then Some v else get k d'
  end.

(** [k in d] *)
Definition mem (k : string) (d : t) : bool :=
  match get k d with Some _ => true | None => false end.

(** [d[k] = v]: an existing key keeps its position, a new one goes last. *)
Fixpoint set (k : string) (v : V) (d : t) : t :=
  match d with
  | [] => [(k, v)]
  | (k', v') :: d' =>
      if String.eqb k k' then (k, v) :: d' else (k', v') :: set k v d'
  end.

(** [d.items()] *)
Definition items (d : t) : list (string * V) := d.

Definition keys (d : t) : list string := map fst d.

(** What every [dict] satisfies: no key occurs twice. *)
Definition wf (d : t) : Prop := NoDup (keys d).
End Defs.
Arguments t : clear implicits.
End Dict.

(** ** The two datasets *)

(** One element of the [results] array of the property directory report.
    Only two keys are ever read; [None] is an absent key. *)
Record af_property : Type := {
  property_id : option pyval;
  property_address : option pyval
}.

(** One row of the [properties] table as selected by the store reader
    ([id,address,appfolio_id,active]); [appfolio_id] is [None] for null. *)
Record sb_property : Type := {
  id : Z;
  address : string;
  appfolio_id : option string;
  active : bool
}.

(** Outcome of a call into [requests]: the exception every caller catches,
    or the decoded body of a 2xx response. *)
Inductive http_result (A : Type) : Type :=
| RequestException
| Response (body : A).
Arguments RequestException {A}.
Arguments Response {A} body.

(** Body of the property directory report: the [results] key may be absent. *)
Record af_report : Type := { results : option (list af_property) }.

(** [fetch_appfolio_properties]; [None] is [sys.exit(1)]. *)
Definition fetch_appfolio_properties (r : http_result af_report)
  : option (list af_property) :=
  match r with
  | RequestException => None
  | Response data => Some (default [] (results data))
  end.

(** [{p["appfolio_id"]: p for p in properties if p.get("appfolio_id")}] *)
Definition index_by_appfolio_id (properties : list sb_property)
  : Dict.t sb_property :=
  fold_left
    (fun indexed p =>
       match appfolio_id p with
       | Some k => if truthy k then Dict.set k p indexed else indexed
       | None => indexed
       end)
    properties Dict.empty.

(** [fetch_supabase_properties]; [None] is [sys.exit(1)]. *)
Definition fetch_supabase_properties (r : http_result (list sb_property))
  : option (Dict.t sb_property) :=
  match r with
  | RequestException => None
  | Response properties => Some (index_by_appfolio_id properties)
  end.

(** ** The store writer *)

Inductive http_method : Type := POST | PATCH.

(** The arguments handed to [requests.post] / [requests.patch]. *)
Record request : Type := {
  method : http_method;
  url : string;
  headers : list (string * string);
  params : list (string * string);
  json : list (string * pyval)
}.

(** The calls the reconciliation makes into the store writer:
    [insert_property(id, address)] and [update_property_status(id, flag)]. *)
Inductive Operation : Type :=
| Insert (external_id display_name : string)
| SetActive (external_id : string) (flag : bool).

(** [os.environ]: the module-level constants are lookups in it. *)
Abbreviation environment := (gmap string string).

(** An f-string field holding the result of [os.environ.get]. *)
Definition fmt (v : option string) : string :=
  match v with Some s => s | None => "None" end.

Definition SUPABASE_URL (environ : environment) := environ !! "SUPABASE_URL".
Definition SUPABASE_SERVICE_KEY (environ : environment) :=
  environ !! "SUPABASE_SERVICE_KEY".

Definition write_headers (environ : environment) : list (string * string) :=
  [ ("apikey", fmt (SUPABASE_SERVICE_KEY environ));
    ("Authorization", "Bearer " +:+ fmt (SUPABASE_SERVICE_KEY environ));
    ("Content-Type", "application/json");
    ("Prefer", "return=minimal") ].

(** The POST sent by [insert_property]. *)
Definition insert_request (environ : environment) (appfolio_id address : string)
  : request :=
  {| method := POST;
     url := fmt (SUPABASE_URL environ) +:+ "/rest/v1/properties";
     headers := write_headers environ;
     params := [];
     json := [ ("address", PStr address);
               ("appfolio_id", PStr appfolio_id);
               ("active", PBool true) ] |}.

(** The PATCH sent by [update_property_status]. *)
Definition update_request (environ : environment) (appfolio_id : string)
  (active : bool) : request :=
  {| method := PATCH;
     url := fmt (SUPABASE_URL environ) +:+ "/rest/v1/properties";
     headers := write_headers environ;
     params := [ ("appfolio_id", "eq." +:+ appfolio_id) ];
     json := [ ("active", PBool active) ] |}.

Definition request_of (environ : environment) (op : Operation) : request :=
  match op with
  | Insert k name => insert_request environ k name
  | SetActive k b => update_request environ k b
  end.

(** Counters of one run (the [stats] dict). *)
Record Stats : Type := {
  added : nat;
  reactivated : nat;
  deactivated : nat;
  unchanged : nat;
  errors : nat
}.

Definition stats0 : Stats :=
  {| added := 0; reactivated := 0; deactivated := 0; unchanged := 0; errors := 0 |}.

Definition incr_added (s : Stats) : Stats :=
  {| added := S (added s); reactivated := reactivated s;
     deactivated := deactivated s; unchanged := unchanged s; errors := errors s |}.
Definition incr_reactivated (s : Stats) : Stats :=
  {| added := added s; reactivated := S (reactivated s);
     deactivated := deactivated s; unchanged := unchanged s; errors := errors s |}.
Definition incr_deactivated (s : Stats) : Stats :=
  {| added := added s; reactivated := reactivated s;
     deactivated := S (deactivated s); unchanged := unchanged s; errors := errors s |}.
Definition incr_unchanged (s : Stats) : Stats :=
  {| added := added s; reactivated := reactivated s;
     deactivated := deactivated s; unchanged := S (unchanged s); errors := errors s |}.
Definition incr_errors (s : Stats) : Stats :=
  {| added := added s; reactivated := reactivated s;
     deactivated := deactivated s; unchanged := unchanged s; errors := S (errors s) |}.

(** [str(prop.get("property_id"))] *)
Definition get_id (prop : af_property) : string :=
  py_str (default PNone (property_id prop)).

(** [prop.get("property_address", "").strip()]; [None] when the value is
    not a [str], where [.strip] raises [AttributeError]. *)
Definition get_address (prop : af_property) : option string :=
  match property_address prop with
  | None => Some (strip "")
  | Some (PStr s) => Some (strip s)
  | Some _ => None
  end.

Section Run.
(** The network: sending a write request moves the world and either
    raises [RequestException] ([false]) or returns a 2xx response. *)
Context {W : Type}.
Variable http : request -> W -> bool * W.
Variable environ : environment.

(** [insert_property] *)
Definition insert_property (appfolio_id address : string) (w : W) : bool * W :=
  http (insert_request environ appfolio_id address) w.

(** [update_property_status] *)
Definition update_property_status (appfolio_id : string) (active : bool)
  (w : W) : bool * W :=
  http (update_request environ appfolio_id active) w.

(** The local variables of [sync_properties] while it loops, the world,
    and the list of store-writer calls made so far (oldest first). *)
Record sync_state : Type := {
  stats : Stats;
  appfolio_ids : gset string;
  world : W;
  calls : list Operation
}.

Definition init_state (w : W) : sync_state :=
  {| stats := stats0; appfolio_ids := ∅; world := w; calls := [] |}.

(** One store-writer call: the world moves, the call is recorded and the
    counter chosen by the result is bumped. *)
Definition write (op : Operation) (on_success : Stats -> Stats)
  (st : sync_state) : sync_state :=
  let '(ok, w) :=
    match op with
    | Insert k name => insert_property k name (world st)
    | SetActive k b => update_property_status k b (world st)
    end in
  {| stats := if ok then on_success (stats st) else incr_errors (stats st);
     appfolio_ids := appfolio_ids st;
     world := w;
     calls := calls st ++ [op] |}.

(** Body of the loop over [appfolio_properties]; [None] is the uncaught
    [AttributeError]. *)
Definition sync_external (supabase_properties : Dict.t sb_property)
  (st : sync_state) (prop : af_property) : option sync_state :=
  let appfolio_id := get_id prop in
  match get_address prop with
  | None => None
  | Some address =>
      if negb (truthy appfolio_id) || negb (truthy address) then Some st
      else
        let st :=
          {| stats := stats st;
             appfolio_ids := {[ appfolio_id ]} ∪ appfolio_ids st;
             world := world st;
             calls := calls st |} in
        match Dict.get appfolio_id supabase_properties with
        | Some existing =>
            if negb (active existing)
            then Some (write (SetActive appfolio_id true) incr_reactivated st)
            else Some {| stats := incr_unchanged (stats st);
                         appfolio_ids := appfolio_ids st;
                         world := world st;
                         calls := calls st |}
        | None => Some (write (Insert appfolio_id address) incr_added st)
        end
  end.

(** The loop over [appfolio_properties]: the state reached, and whether
    the loop ran to its end ([false]: an exception left it). *)
Fixpoint loop_external (supabase_properties : Dict.t sb_property)
  (appfolio_properties : list af_property) (st : sync_state)
  : sync_state * bool :=
  match appfolio_properties with
  | [] => (st, true)
  | prop :: rest =>
      match sync_external supabase_properties st prop with
      | None => (st, false)
      | Some st' => loop_external supabase_properties rest st'
      end
  end.

(** Body of the loop over [supabase_properties.items()]. *)
Definition sync_stored (st : sync_state) (item : string * sb_property)
  : sync_state :=
  let '(appfolio_id, prop) := item in
  if negb (bool_decide (appfolio_id ∈ appfolio_ids st)) && active prop
  then write (SetActive appfolio_id false) incr_deactivated st
  else st.

Definition loop_stored (supabase_properties : Dict.t sb_property)
  (st : sync_state) : sync_state :=
  fold_left sync_stored (Dict.items supabase_properties) st.

(** Both loops of [sync_properties], from the fresh [stats] to the end of
    the deactivation pass. *)
Definition reconcile (appfolio_properties : list af_property)
  (supabase_properties : Dict.t sb_property) (w : W) : sync_state * bool :=
  match loop_external supabase_properties appfolio_properties (init_state w) with
  | (st, true) => (loop_stored supabase_properties st, true)
  | (st, false) => (st, false)
  end.

(** How a run of the script ends. *)
Inductive run : Type :=
| MissingEnvironment (missing : list string)
| FetchFailed
| Uncaught (st : sync_state)
| Finished (st : sync_state).

Definition required_vars : list string :=
  [ "APPFOLIO_CLIENT_ID"; "APPFOLIO_CLIENT_SECRET";
    "SUPABASE_URL"; "SUPABASE_SERVICE_KEY" ].

(** [[var for var in required_vars if not os.environ.get(var)]] *)
Definition missing_vars : list string :=
  List.filter
    (fun var => negb (match environ !! var with
                      | Some v => truthy v
                      | None => false
                      end))
    required_vars.

(** [sync_properties] *)
Definition sync_properties (appfolio : http_result af_report)
  (supabase : http_result (list sb_property)) (w : W) : run :=
  match missing_vars with
  | _ :: _ => MissingEnvironment missing_vars
  | [] =>
      match fetch_appfolio_properties appfolio with
      | None => FetchFailed
      | Some appfolio_properties =>
          match fetch_supabase_properties supabase with
          | None => FetchFailed
          | Some supabase_properties =>
              match reconcile appfolio_properties supabase_properties w with
              | (st, true) => Finished st
              | (st, false) => Uncaught st
              end
          end
      end
  end.

(** Exit status of the process: [sys.exit(1)] on the early exits and when
    [stats["errors"] > 0], status 1 for an uncaught exception, else 0. *)
Definition exit_code (r : run) : Z :=
  match r with
  | MissingEnvironment _ => 1
  | FetchFailed => 1
  | Uncaught _ => 1
  | Finished st => if (0 <? errors (stats st))%nat then 1 else 0
  end.
End Run.

Arguments sync_state : clear implicits.
Arguments run : clear implicits.

(** ** Vocabulary of the properties *)

(** The record passes the guard [if not appfolio_id or not address]. *)
Definition kept (prop : af_property) : bool :=
  match get_address prop with
  | Some address => truthy (get_id prop) && truthy address
  | None => false
  end.

(** The record's address is absent or a [str], so [.strip()] does not raise. *)
Definition strippable (prop : af_property) : bool :=
  match get_address prop with Some _ => true | None => false end.

(** The kept records that carry the id [k]. *)
Definition kept_with_id (k : string) (props : list af_property)
  : list af_property :=
  List.filter (fun p => kept p && String.eqb (get_id p) k) props.

Definition target (op : Operation) : string :=
  match op with
  | Insert k _ => k
  | SetActive k _ => k
  end.

Definition is_insert (k : string) (op : Operation) : bool :=
  match op with
  | Insert k' _ => String.eqb k' k
  | SetActive _ _ => false
  end.

Definition is_set_active (k : string) (b : bool) (op : Operation) : bool :=
  match op with
  | Insert _ _ => false
  | SetActive k' b' => String.eqb k' k && Bool.eqb b' b
  end.

Definition is_reactivate (k : string) := is_set_active k true.

Definition targets (k : string) (op : Operation) : bool :=
  String.eqb (target op) k.

Definition count_ops (f : Operation -> bool) (ops : list Operation) : nat :=
  length (List.filter f ops).

(** The ids that receive each kind of operation. *)
Definition inserted_ids (ops : list Operation) : gset string :=
  list_to_set
    (omap (fun op => match op with Insert k _ => Some k | _ => None end) ops).
Definition reactivated_ids (ops : list Operation) : gset string :=
  list_to_set
    (omap (fun op => match op with SetActive k true => Some k | _ => None end) ops).
Definition deactivated_ids (ops : list Operation) : gset string :=
  list_to_set
    (omap (fun op => match op with SetActive k false => Some k | _ => None end) ops).

(** The operations the first loop issues for one record, and the ones the
    second loop issues for one item; the loops are shown to make exactly
    these calls. *)
Definition external_ops (d : Dict.t sb_property) (prop : af_property)
  : list Operation :=
  match get_address prop with
  | Some address =>
      if kept prop then
        match Dict.get (get_id prop) d with
        | Some existing =>
            if active existing then [] else [SetActive (get_id prop) true]
        | None => [Insert (get_id prop) address]
        end
      else []
  | None => []
  end.

Definition stored_ops (S : gset string) (item : string * sb_property)
  : list Operation :=
  if negb (bool_decide (item.1 ∈ S)) && active item.2
  then [SetActive item.1 false] else [].

(** The records the first loop gets through: those before the first one
    whose address makes [.strip()] raise. *)
Fixpoint processed (props : list af_property) : list af_property :=
  match props with
  | [] => []
  | p :: rest => if strippable p then p :: processed rest else []
  end.

Definition kept_ids (props : list af_property) : gset string :=
  list_to_set (map get_id (List.filter kept props)).

(** Results of the writes of a run, replayed from the starting world. *)
Fixpoint replay {W : Type} (http : request -> W -> bool * W)
  (environ : environment) (ops : list Operation) (w : W) : list bool * W :=
  match ops with
  | [] => ([], w)
  | op :: rest =>
      let '(ok, w') := http (request_of environ op) w in
      let '(oks, w'') := replay http environ rest w' in
      (ok :: oks, w'')
  end.

Definition failures (oks : list bool) : nat := length (List.filter negb oks).

(** ** The table behind the store API *)

(** The last row of the table that carries the id [k]: the row the store
    reader's index keeps for [k]. *)
Definition last_with_id (k : string) (table : list sb_property)
  : option sb_property :=
  List.find
    (fun r => match appfolio_id r with
              | Some k' => String.eqb k' k
              | None => false
              end)
    (rev table).

Definition set_active (b : bool) (r : sb_property) : sb_property :=
  {| id := id r; address := address r; appfolio_id := appfolio_id r; active := b |}.

Definition fresh_id (table : list sb_property) : Z :=
  fold_right Z.max 0%Z (map id table) + 1.

(** Modelled from the spec: the table behind the REST API lives in the
    hosted store, not in the repository.  Effect of a successful write as
    the store-writer contract has it: Insert creates a new row with
    [active = true]; SetActive updates only the [active] flag of the rows
    matching the given id. *)
Definition apply_op (op : Operation) (table : list sb_property)
  : list sb_property :=
  match op with
  | Insert k name =>
      table ++ [ {| id := fresh_id table; address := name;
                    appfolio_id := Some k; active := true |} ]
  | SetActive k b =>
      map (fun r => match appfolio_id r with
                    | Some k' => if String.eqb k' k then set_active b r else r
                    | None => r
                    end)
          table
  end.

Definition apply_ops (ops : list Operation) (table : list sb_property)
  : list sb_property :=
  fold_left (fun t op => apply_op op t) ops table.

(** The [active] flag the store reader's index would report for [k]. *)
Definition flag (k : string) (table : list sb_property) : option bool :=
  active <$> last_with_id k table.

(** How one applied operation moves that flag. *)
Definition flag_step (k : string) (s : option bool) (op : Operation)
  : option bool :=
  match op with
  | Insert k' _ => if String.eqb k' k then Some true else s
  | SetActive k' b => if String.eqb k' k then (fun _ => b) <$> s else s
  end.

(** A run over the index of a table, and the table once every call of
    that run took effect. *)
Definition first_run {W : Type} (http : request -> W -> bool * W)
  (environ : environment) (props : list af_property)
  (rows : list sb_property) (w : W) : sync_state W * bool :=
  reconcile http environ props (index_by_appfolio_id rows) w.

Definition table_after {W : Type} (http : request -> W -> bool * W)
  (environ : environment) (props : list af_property)
  (rows : list sb_property) (w : W) : list sb_property :=
  apply_ops (calls (first_run http environ props rows w).1) rows.

(** Everything of a row but its [active] flag. *)
Definition identity_of (r : sb_property) : Z * string * option string :=
  (id r, address r, appfolio_id r).

(** No two rows of the table share a non-null external id. *)
Definition unique_ids (table : list sb_property) : Prop :=
  NoDup (omap appfolio_id table).

(** The kept record finds its id in the index on an active row: the branch
    that only counts [unchanged]. *)
Definition in_sync (d : Dict.t sb_property) (prop : af_property) : bool :=
  kept prop &&
  match Dict.get (get_id prop) d with
  | Some existing => active existing
  | None => false
  end.

Definition writes_counted (s : Stats) : nat :=
  added s + reactivated s + deactivated s + errors s.

(** [st'] is reached from [st] by making the calls [ops], in this order, and
    counting [u] records as unchanged: the world is the one the replayed
    requests lead to, every failed write is counted in [errors] and every
    other one in exactly one of the three success counters. *)
Definition extends {W : Type} (http : request -> W -> bool * W)
  (environ : environment) (st st' : sync_state W) (ops : list Operation)
  (u : nat) : Prop :=
  calls st' = calls st ++ ops /\
  appfolio_ids st ⊆ appfolio_ids st' /\
  unchanged (stats st') = unchanged (stats st) + u /\
  world st' = (replay http environ ops (world st)).2 /\
  errors (stats st')
  = errors (stats st) + failures (replay http environ ops (world st)).1 /\
  writes_counted (stats st') = writes_counted (stats st) + length ops.

(** ** Sample worlds and data *)

(** A network on which every write succeeds. *)
Definition always_ok : request -> unit -> bool * unit := fun _ w => (true, w).


Definition full_environ : environment :=
  {[ "APPFOLIO_CLIENT_ID" := "client"; "APPFOLIO_CLIENT_SECRET" := "secret";
     "SUPABASE_URL" := "https://db.example"; "SUPABASE_SERVICE_KEY" := "key" ]}.

(** [{"property_address": "12 Oak St"}]: no [property_id] key. *)
Definition oak_without_id : af_property :=
  {| property_id := None; property_address := Some (PStr "12 Oak St") |}.

(** [{"property_id": 7, "property_address": " 1 Elm St "}] *)
Definition elm : af_property :=
  {| property_id := Some (PInt 7);
     property_address := Some (PStr " 1 Elm St ") |}.

(** [{"property_id": "7", "property_address": "1 Elm Street"}] *)
Definition elm_again : af_property :=
  {| property_id := Some (PStr "7");
     property_address := Some (PStr "1 Elm Street") |}.

(** [{"property_id": 9, "property_address": "   "}] *)
Definition blank_name : af_property :=
  {| property_id := Some (PInt 9); property_address := Some (PStr "   ") |}.

Definition row_7 (flag : bool) : sb_property :=
  {| id := 1; address := "1 Elm St"; appfolio_id := Some "7"; active := flag |}.

Definition row_9 (flag : bool) : sb_property :=
  {| id := 2; address := "9 Pine Rd"; appfolio_id := Some "9"; active := flag |}.

Definition row_null : sb_property :=
  {| id := 3; address := "3 Ash Ct"; appfolio_id := None; active := true |}.

Definition row_empty : sb_property :=
  {| id := 4; address := "4 Fir Ln"; appfolio_id := Some ""; active := true |}.

(** ** Vocabulary of the further properties *)

Definition first_char (s : string) : option ascii :=
  match s with
  | EmptyString => None
  | String c _ => Some c
  end.

Fixpoint last_char (s : string) : option ascii :=
  match s with
  | EmptyString => None
  | String c s' =>
      match last_char s' with
      | None => Some c
      | Some c' => Some c'
      end
  end.

(** Every character of the string is whitespace (true of the empty
    string). *)
Fixpoint all_space (s : string) : bool :=
  match s with
  | EmptyString => true
  | String c s' => py_isspace c && all_space s'
  end.

Definition is_deactivation (op : Operation) : bool :=
  match op with
  | SetActive _ false => true
  | _ => false
  end.

(** The kept record leads to a write: its id is not on an active row of
    the index. *)
Definition needs_write (d : Dict.t sb_property) (prop : af_property) : bool :=
  kept prop && negb (in_sync d prop).

(** The item is deactivated by the second loop: its key is not in [S] and
    its row is active. *)
Definition unseen_active (S : gset string) (item : string * sb_property)
  : bool :=
  negb (bool_decide (item.1 ∈ S)) && active item.2.

(** The writes among [ops] that satisfy [f] and succeeded, [oks] being the
    results of the writes in the same order. *)
Fixpoint successes (f : Operation -> bool) (ops : list Operation)
  (oks : list bool) : nat :=
  match ops, oks with
  | op :: ops', ok :: oks' =>
      (if ok && f op then 1 else 0) + successes f ops' oks'
  | _, _ => 0
  end.

Definition is_insertion (op : Operation) : bool :=
  match op with Insert _ _ => true | SetActive _ _ => false end.

Definition is_reactivation (op : Operation) : bool :=
  match op with SetActive _ true => true | _ => false end.

(** The counter the script bumps when the write [op] succeeds. *)
Definition counter_of (op : Operation) : Stats -> Stats :=
  match op with
  | Insert _ _ => incr_added
  | SetActive _ true => incr_reactivated
  | SetActive _ false => incr_deactivated
  end.

(** [st'] is reached from [st] by the writes [ops]: each success counter
    grew by the number of successful writes of its kind. *)
Definition tallied {W : Type} (http : request -> W -> bool * W)
  (environ : environment) (st st' : sync_state W) (ops : list Operation)
  : Prop :=
  added (stats st')
  = added (stats st)
    + successes is_insertion ops (replay http environ ops (world st)).1 /\
  reactivated (stats st')
  = reactivated (stats st)
    + successes is_reactivation ops (replay http environ ops (world st)).1 /\
  deactivated (stats st')
  = deactivated (stats st)
    + successes is_deactivation ops (replay http environ ops (world st)).1.


(** A network on which every write fails. *)
Definition always_down : request -> unit -> bool * unit :=
  fun _ w => (false, w).

(** [{"property_id": 5, "property_address": null}] *)
Definition null_address : af_property :=
  {| property_id := Some (PInt 5); property_address := Some PNone |}.

(** * Facts *)

(** ** Dictionaries *)

Section DictFacts.
Context {V : Type}.
Implicit Types (d : Dict.t V) (k : string) (v : V).

Lemma dict_get_set_eq k v d : Dict.get k (Dict.set k v d) = Some v.
Proof.
  induction d as [|[k' v'] d IH]; simpl.
  - by rewrite String.eqb_refl.
  - destruct (String.eqb_spec k k') as [->|Hne]; simpl.
    + by rewrite String.eqb_refl.
    + by destruct (String.eqb_spec k k').
Qed.

Lemma dict_get_set_ne k k' v d :
  k ≠ k' -> Dict.get k' (Dict.set k v d) = Dict.get k' d.
Proof.
  intros Hne. induction d as [|[k0 v0] d IH]; simpl.
  - by destruct (String.eqb_spec k' k) as [->|].
  - destruct (String.eqb_spec k k0) as [->|Hk]; simpl.
    + by destruct (String.eqb_spec k' k0) as [->|].
    + by rewrite IH.
Qed.

Lemma dict_get_In k v d : Dict.get k d = Some v -> In (k, v) (Dict.items d).
Proof.
  induction d as [|[k' v'] d IH]; simpl; [done|].
  destruct (String.eqb_spec k k') as [->|Hne].
  - intros [= ->]. by left.
  - intros H. right. by apply IH.
Qed.

Lemma dict_get_None k d : Dict.get k d = None <-> ~ In k (Dict.keys d).
Proof.
  induction d as [|[k' v'] d IH]; simpl; [tauto|].
  destruct (String.eqb_spec k k') as [->|Hne].
  - split; [done | intros H; destruct H; by left].
  - rewrite IH. split; [intros H [E|E]; [by subst | done] | tauto].
Qed.

Lemma dict_In_get k v d :
  Dict.wf d -> In (k, v) (Dict.items d) -> Dict.get k d = Some v.
Proof.
  unfold Dict.wf, Dict.items.
  induction d as [|[k' v'] d IH]; simpl; [done|].
  intros Hnd [E|Hin].
  - injection E as -> ->. by rewrite String.eqb_refl.
  - apply NoDup_cons in Hnd as [Hk' Hnd].
    destruct (String.eqb_spec k k') as [->|Hne]; [|by apply IH].
    exfalso. apply Hk'. apply list_elem_of_In.
    change k' with (fst (k', v)). by apply in_map.
Qed.

Lemma dict_keys_set k v d :
  Dict.keys (Dict.set k v d)
  = if Dict.mem k d then Dict.keys d else Dict.keys d ++ [k].
Proof.
  unfold Dict.mem. induction d as [|[k' v'] d IH]; simpl; [done|].
  destruct (String.eqb_spec k k') as [->|Hne]; simpl; [done|].
  rewrite IH. by destruct (Dict.get k d).
Qed.

Lemma dict_wf_set k v d : Dict.wf d -> Dict.wf (Dict.set k v d).
Proof.
  unfold Dict.wf. intros Hnd. rewrite dict_keys_set. unfold Dict.mem.
  destruct (Dict.get k d) eqn:E; [done|].
  apply NoDup_app. split_and!; [done| |apply NoDup_singleton].
  intros x Hx ->%list_elem_of_singleton.
  apply dict_get_None in E. apply E. by apply list_elem_of_In.
Qed.
End DictFacts.

(** ** The store reader's index *)

Lemma truthy_spec s : truthy s = true <-> s ≠ "".
Proof.
  unfold truthy. destruct (String.eqb_spec s ""); simpl; split; congruence.
Qed.

Lemma truthy_false s : truthy s = false <-> s = "".
Proof.
  unfold truthy. destruct (String.eqb_spec s ""); simpl; split; congruence.
Qed.

Lemma index_snoc rows p :
  index_by_appfolio_id (rows ++ [p])
  = match appfolio_id p with
    | Some k =>
        if truthy k then Dict.set k p (index_by_appfolio_id rows)
        else index_by_appfolio_id rows
    | None => index_by_appfolio_id rows
    end.
Proof. unfold index_by_appfolio_id. by rewrite fold_left_app. Qed.

Lemma index_wf rows : Dict.wf (index_by_appfolio_id rows).
Proof.
  induction rows as [|p rows IH] using rev_ind.
  - apply NoDup_nil_2.
  - rewrite index_snoc. destruct (appfolio_id p) as [k|]; [|done].
    destruct (truthy k); [by apply dict_wf_set | done].
Qed.

Lemma last_with_id_snoc k rows p :
  last_with_id k (rows ++ [p])
  = match appfolio_id p with
    | Some k' => if String.eqb k' k then Some p else last_with_id k rows
    | None => last_with_id k rows
    end.
Proof.
  unfold last_with_id. rewrite rev_app_distr. simpl.
  destruct (appfolio_id p) as [k'|]; [|done]. by destruct (String.eqb k' k).
Qed.

Lemma last_with_id_Some k rows r :
  last_with_id k rows = Some r -> In r rows /\ appfolio_id r = Some k.
Proof.
  unfold last_with_id. intros [Hin Hk]%find_some.
  split; [by apply in_rev|].
  destruct (appfolio_id r) as [k'|]; [|done].
  by apply String.eqb_eq in Hk as ->.
Qed.

Lemma last_with_id_None k rows r :
  last_with_id k rows = None -> In r rows -> appfolio_id r ≠ Some k.
Proof.
  unfold last_with_id. intros Hnone Hin E.
  apply in_rev in Hin. pose proof (find_none _ _ Hnone r Hin) as Hf.
  simpl in Hf. rewrite E, String.eqb_refl in Hf. done.
Qed.

(** The index keeps, for each non-empty id, the last row carrying it. *)
Lemma index_get rows k :
  Dict.get k (index_by_appfolio_id rows)
  = if truthy k then last_with_id k rows else None.
Proof.
  induction rows as [|p rows IH] using rev_ind.
  - simpl. by destruct (truthy k).
  - rewrite index_snoc, last_with_id_snoc.
    destruct (appfolio_id p) as [k'|]; [|done].
    destruct (truthy k') eqn:Hk'.
    + destruct (String.eqb_spec k' k) as [->|Hne].
      * by rewrite dict_get_set_eq, Hk'.
      * by rewrite dict_get_set_ne.
    + apply truthy_false in Hk' as ->.
      destruct (String.eqb_spec "" k) as [<-|Hne]; [|done].
      rewrite IH. done.
Qed.

Lemma unique_ids_same_row rows r r' k :
  unique_ids rows -> In r rows -> In r' rows ->
  appfolio_id r = Some k -> appfolio_id r' = Some k -> r = r'.
Proof.
  unfold unique_ids.
  induction rows as [|p rows IH]; simpl; [done|].
  intros Hnd Hr Hr' Hk Hk'.
  assert (forall x, In x rows -> appfolio_id x = Some k ->
                    appfolio_id p = Some k -> False) as Hclash.
  { intros x Hx Ex Ep. rewrite Ep in Hnd. apply NoDup_cons in Hnd as [Hnot _].
    apply Hnot. apply list_elem_of_omap. exists x.
    split; [by apply list_elem_of_In | done]. }
  assert (NoDup (omap appfolio_id rows)) as Hnd'.
  { destruct (appfolio_id p); [by apply NoDup_cons in Hnd as [_ ?] | done]. }
  destruct Hr as [->|Hr], Hr' as [->|Hr']; [done| | |by apply IH].
  - exfalso. by apply (Hclash r').
  - exfalso. by apply (Hclash r).
Qed.

(** C10. The index returned by the store reader leaves out the rows whose
    [appfolio_id] is null and also those whose [appfolio_id] is the empty
    string: on a table in which no two rows share a non-null id, a key [k]
    is bound to a row [r] exactly when [r] is a fetched row whose
    [appfolio_id] is present, equal to [k] and non-empty. *)
Theorem C10_index_holds_exactly_rows_with_id rows :
  unique_ids rows ->
  forall k r,
    Dict.get k (index_by_appfolio_id rows) = Some r
    <-> (In r rows /\ appfolio_id r = Some k /\ k ≠ "").
Proof.
  intros Huniq k r. rewrite index_get. split.
  - destruct (truthy k) eqn:Hk; [|done].
    intros [Hin E]%last_with_id_Some.
    split_and!; [done..|by apply truthy_spec].
  - intros (Hin & E & Hk%truthy_spec). rewrite Hk.
    destruct (last_with_id k rows) as [r'|] eqn:Hlast.
    + apply last_with_id_Some in Hlast as [Hin' E'].
      f_equal. by apply (unique_ids_same_row rows r' r k).
    + by destruct (last_with_id_None k rows r Hlast Hin).
Qed.

(** ** The two loops *)

Lemma replay_app {W : Type} (http : request -> W -> bool * W) environ
  (ops1 ops2 : list Operation) (w : W) :
  replay http environ (ops1 ++ ops2) w
  = ((replay http environ ops1 w).1
       ++ (replay http environ ops2 (replay http environ ops1 w).2).1,
     (replay http environ ops2 (replay http environ ops1 w).2).2).
Proof.
  revert w. induction ops1 as [|op ops1 IH]; intros w; simpl.
  - by destruct (replay http environ ops2 w).
  - destruct (http (request_of environ op) w) as [ok w'].
    rewrite IH.
    destruct (replay http environ ops1 w') as [oks1 w1]. simpl.
    by destruct (replay http environ ops2 w1).
Qed.

Lemma failures_app oks1 oks2 :
  failures (oks1 ++ oks2) = failures oks1 + failures oks2.
Proof. unfold failures. by rewrite List.filter_app, length_app. Qed.

Section LoopFacts.
Context {W : Type}.
Variable http : request -> W -> bool * W.
Variable environ : environment.
Implicit Types (st : sync_state W) (d : Dict.t sb_property).

Lemma extends_refl st : extends http environ st st [] 0.
Proof.
  unfold extends. simpl. rewrite app_nil_r.
  split_and!; try done; unfold failures; simpl; lia.
Qed.

Lemma extends_trans st1 st2 st3 ops1 ops2 u1 u2 :
  extends http environ st1 st2 ops1 u1 ->
  extends http environ st2 st3 ops2 u2 ->
  extends http environ st1 st3 (ops1 ++ ops2) (u1 + u2).
Proof.
  unfold extends. intros (Hc1 & Hi1 & Hu1 & Hw1 & He1 & Ht1)
                         (Hc2 & Hi2 & Hu2 & Hw2 & He2 & Ht2).
  rewrite replay_app. simpl. rewrite <- Hw1, failures_app, length_app.
  split_and!.
  - by rewrite Hc2, Hc1, app_assoc.
  - set_solver.
  - lia.
  - done.
  - lia.
  - lia.
Qed.

Lemma extends_write op f st :
  (forall s, writes_counted (f s) = S (writes_counted s)) ->
  (forall s, errors (f s) = errors s) ->
  (forall s, unchanged (f s) = unchanged s) ->
  extends http environ st (write http environ op f st) [op] 0.
Proof.
  intros Hf He Hu. unfold extends, write. simpl.
  assert (http (request_of environ op) (world st)
          = match op with
            | Insert k name => insert_property http environ k name (world st)
            | SetActive k b => update_property_status http environ k b (world st)
            end) as <- by (by destruct op).
  destruct (http (request_of environ op) (world st)) as [[] w']; simpl;
    unfold failures; simpl; rewrite ?Hf, ?He, ?Hu;
    split_and!; try done; unfold writes_counted; simpl; lia.
Qed.
End LoopFacts.

Lemma kept_strippable p : kept p = true -> strippable p = true.
Proof. unfold kept, strippable. by destruct (get_address p). Qed.

Lemma kept_ids_cons p props :
  kept_ids (p :: props)
  = (if kept p then {[ get_id p ]} else ∅) ∪ kept_ids props.
Proof.
  unfold kept_ids. simpl. destruct (kept p); simpl; set_solver.
Qed.

Lemma elem_of_kept_ids k props :
  k ∈ kept_ids props <-> exists p, In p props /\ kept p = true /\ get_id p = k.
Proof.
  unfold kept_ids. rewrite elem_of_list_to_set, list_elem_of_In, in_map_iff.
  split.
  - intros (p & E & [Hin Hk]%filter_In). eauto.
  - intros (p & Hin & Hk & E). exists p. split; [done|]. by apply filter_In.
Qed.

Lemma processed_all props :
  forallb strippable props = true -> processed props = props.
Proof.
  induction props as [|p props IH]; simpl; [done|].
  intros [Hp Hrest]%andb_true_iff. rewrite Hp. f_equal. by apply IH.
Qed.

Local Ltac counters :=
  intros; unfold writes_counted; simpl; lia.

Section Loops.
Context {W : Type}.
Variable http : request -> W -> bool * W.
Variable environ : environment.
Implicit Types (st : sync_state W) (d : Dict.t sb_property).

Lemma extends_seen st I :
  extends http environ st
    {| stats := stats st; appfolio_ids := I ∪ appfolio_ids st;
       world := world st; calls := calls st |} [] 0.
Proof.
  unfold extends. simpl. rewrite app_nil_r.
  split_and!; try done; [set_solver|..]; unfold failures; simpl; lia.
Qed.

Lemma extends_unchanged st :
  extends http environ st
    {| stats := incr_unchanged (stats st); appfolio_ids := appfolio_ids st;
       world := world st; calls := calls st |} [] 1.
Proof.
  unfold extends. simpl. rewrite app_nil_r.
  split_and!; try done; unfold failures, writes_counted; simpl; lia.
Qed.

Lemma write_appfolio_ids op f st :
  appfolio_ids (write http environ op f st) = appfolio_ids st.
Proof.
  unfold write.
  by destruct (match op with
               | Insert k name => insert_property http environ k name (world st)
               | SetActive k b => update_property_status http environ k b (world st)
               end).
Qed.

Lemma sync_external_None d st p :
  strippable p = false -> sync_external http environ d st p = None.
Proof.
  unfold strippable, sync_external. by destruct (get_address p).
Qed.

Lemma sync_external_Some d st p :
  strippable p = true ->
  exists st',
    sync_external http environ d st p = Some st'
    /\ extends http environ st st' (external_ops d p)
         (if in_sync d p then 1 else 0)
    /\ appfolio_ids st'
       = (if kept p then {[ get_id p ]} else ∅) ∪ appfolio_ids st.
Proof.
  unfold strippable, sync_external, external_ops, in_sync, kept.
  destruct (get_address p) as [a|]; [intros _|done].
  destruct (truthy (get_id p)), (truthy a); simpl;
    try (eexists; split_and!; [done|apply extends_refl|set_solver]).
  set (st0 := {| stats := stats st;
                 appfolio_ids := {[ get_id p ]} ∪ appfolio_ids st;
                 world := world st; calls := calls st |}).
  pose proof (extends_seen st {[ get_id p ]}) as H0. fold st0 in H0.
  destruct (Dict.get (get_id p) d) as [existing|].
  - destruct (active existing); simpl.
    + eexists; split_and!; [done| |done].
      apply (extends_trans _ _ _ _ _ [] [] 0 1 H0 (extends_unchanged st0)).
    + eexists; split_and!; [done| |by rewrite write_appfolio_ids].
      apply (extends_trans _ _ _ _ _ [] [_] 0 0 H0).
      apply extends_write; counters.
  - eexists; split_and!; [done| |by rewrite write_appfolio_ids].
    apply (extends_trans _ _ _ _ _ [] [_] 0 0 H0).
    apply extends_write; counters.
Qed.

Lemma loop_external_spec d props st :
  (loop_external http environ d props st).2 = forallb strippable props
  /\ extends http environ st (loop_external http environ d props st).1
       (flat_map (external_ops d) (processed props))
       (length (List.filter (in_sync d) (processed props)))
  /\ appfolio_ids (loop_external http environ d props st).1
     = kept_ids (processed props) ∪ appfolio_ids st.
Proof.
  revert st. induction props as [|p props IH]; intros st; simpl.
  - split_and!; [done|apply extends_refl|set_solver].
  - destruct (strippable p) eqn:Hp.
    + destruct (sync_external_Some d st p Hp) as (st' & -> & Hext & Hids).
      destruct (IH st') as (Hb & Hext' & Hids').
      split_and!; [done| |].
      * simpl. replace (length _)
          with ((if in_sync d p then 1 else 0)
                + length (List.filter (in_sync d) (processed props)))
          by (by destruct (in_sync d p)).
        by eapply extends_trans.
      * rewrite Hids', Hids, kept_ids_cons. set_solver.
    + rewrite (sync_external_None d st p Hp). simpl.
      split_and!; [done|apply extends_refl|set_solver].
Qed.

Lemma sync_stored_spec st item :
  extends http environ st (sync_stored http environ st item)
    (stored_ops (appfolio_ids st) item) 0
  /\ appfolio_ids (sync_stored http environ st item) = appfolio_ids st.
Proof.
  destruct item as [k r]. unfold sync_stored, stored_ops. simpl.
  destruct (negb (bool_decide (k ∈ appfolio_ids st)) && active r).
  - split; [apply extends_write; counters | by rewrite write_appfolio_ids].
  - split; [apply extends_refl | done].
Qed.

Lemma loop_stored_spec d st :
  extends http environ st (loop_stored http environ d st)
    (flat_map (stored_ops (appfolio_ids st)) (Dict.items d)) 0
  /\ appfolio_ids (loop_stored http environ d st) = appfolio_ids st.
Proof.
  unfold loop_stored, Dict.items. revert st.
  induction d as [|item d IH]; intros st; simpl.
  - split; [apply extends_refl | done].
  - destruct (sync_stored_spec st item) as [Hext Hids].
    destruct (IH (sync_stored http environ st item)) as [Hext' Hids'].
    rewrite Hids in Hext'. split; [|by rewrite Hids'].
    apply (extends_trans _ _ _ _ _ _ _ 0 0 Hext Hext').
Qed.

(** What one run of the two loops does, in terms of the inputs alone. *)
Lemma reconcile_spec props d w :
  let r := reconcile http environ props d w in
  r.2 = forallb strippable props
  /\ appfolio_ids r.1 = kept_ids (processed props)
  /\ extends http environ (init_state w) r.1
       (flat_map (external_ops d) (processed props)
        ++ (if r.2
            then flat_map (stored_ops (kept_ids (processed props))) (Dict.items d)
            else []))
       (length (List.filter (in_sync d) (processed props))).
Proof.
  unfold reconcile.
  destruct (loop_external_spec d props (init_state w)) as (Hb & Hext & Hids).
  destruct (loop_external http environ d props (init_state w)) as [st b].
  simpl in *. rewrite union_empty_r_L in Hids.
  destruct b; simpl.
  - destruct (loop_stored_spec d st) as [Hext' Hids'].
    rewrite Hids in Hext'. split_and!; [done|by rewrite Hids'|].
    rewrite <- (Nat.add_0_r (length _)). by eapply extends_trans.
  - split_and!; [done..|]. by rewrite app_nil_r.
Qed.

Lemma reconcile_calls props d w :
  let r := reconcile http environ props d w in
  calls r.1
  = flat_map (external_ops d) (processed props)
    ++ (if r.2
        then flat_map (stored_ops (kept_ids (processed props))) (Dict.items d)
        else []).
Proof.
  intros r. destruct (reconcile_spec props d w) as (_ & _ & Hc & _).
  exact Hc.
Qed.
End Loops.

(** ** Where each call comes from *)

Lemma In_external_ops d p op :
  In op (external_ops d p) ->
  kept p = true
  /\ target op = get_id p
  /\ ((exists a, get_address p = Some a /\ op = Insert (get_id p) a
                 /\ Dict.get (get_id p) d = None)
      \/ (exists e, op = SetActive (get_id p) true
                    /\ Dict.get (get_id p) d = Some e /\ active e = false)).
Proof.
  unfold external_ops. destruct (get_address p) as [a|] eqn:Ea; [|done].
  destruct (kept p); [|done].
  destruct (Dict.get (get_id p) d) as [e|] eqn:Ed.
  - destruct (active e) eqn:Eact; [done|].
    intros [<-|[]]. split_and!; [done..|]. right. by exists e.
  - intros [<-|[]]. split_and!; [done..|]. left. by exists a.
Qed.

Lemma In_stored_ops S item op :
  In op (stored_ops S item) ->
  op = SetActive item.1 false /\ (item.1 ∉ S) /\ active item.2 = true.
Proof.
  unfold stored_ops.
  destruct (bool_decide (item.1 ∈ S)) eqn:E; simpl; [done|].
  destruct (active item.2); [|done].
  intros [<-|[]]. split_and!; [done| |done].
  by apply bool_decide_eq_false in E.
Qed.

Section Origins.
Context {W : Type}.
Variable http : request -> W -> bool * W.
Variable environ : environment.

Lemma reconcile_finished props d w :
  (reconcile http environ props d w).2 = true ->
  processed props = props
  /\ appfolio_ids (reconcile http environ props d w).1 = kept_ids props
  /\ calls (reconcile http environ props d w).1
     = flat_map (external_ops d) props
       ++ flat_map (stored_ops (kept_ids props)) (Dict.items d).
Proof.
  intros Hb. pose proof (reconcile_calls http environ props d w) as Hc.
  destruct (reconcile_spec http environ props d w) as (Hs & Hids & _).
  simpl in *. rewrite Hb in Hs, Hc. symmetry in Hs.
  apply processed_all in Hs. rewrite Hs in Hids, Hc. done.
Qed.

(** Every call of a run is an Insert for a seen id the index lacks, a
    reactivation of a seen id the index holds inactive, or a deactivation
    of an unseen id the index holds active. *)
Lemma call_origin props d w op :
  let r := reconcile http environ props d w in
  In op (calls r.1) ->
  (target op ∈ appfolio_ids r.1
   /\ ((exists a, op = Insert (target op) a /\ Dict.get (target op) d = None)
       \/ (exists e, op = SetActive (target op) true
                     /\ Dict.get (target op) d = Some e /\ active e = false)))
  \/ (r.2 = true /\ (target op ∉ appfolio_ids r.1)
      /\ exists e, op = SetActive (target op) false
                   /\ In (target op, e) (Dict.items d) /\ active e = true).
Proof.
  intros r. subst r.
  pose proof (reconcile_calls http environ props d w) as Hc.
  destruct (reconcile_spec http environ props d w) as (_ & Hids & _).
  simpl in *. rewrite Hc, Hids. clear Hc Hids.
  intros [Hin|Hin]%in_app_iff.
  - left. apply in_flat_map in Hin as (p & Hp & Hop).
    apply In_external_ops in Hop as (Hk & -> & Hcase). split.
    + apply elem_of_kept_ids. by exists p.
    + destruct Hcase as [(a & _ & -> & Hd)|(e & -> & Hd & Ha)];
        [left; by exists a | right; by exists e].
  - right. destruct (reconcile http environ props d w).2; [|done].
    apply in_flat_map in Hin as ([k e] & Hitem & Hop).
    apply In_stored_ops in Hop as (-> & Hk & Ha). simpl in *.
    split_and!; [done..|]. by exists e.
Qed.
End Origins.

(** ** Counting calls *)

Lemma count_ops_app f ops1 ops2 :
  count_ops f (ops1 ++ ops2) = count_ops f ops1 + count_ops f ops2.
Proof. unfold count_ops. by rewrite List.filter_app, length_app. Qed.

Lemma count_ops_none f ops :
  (forall op, In op ops -> f op = false) -> count_ops f ops = 0.
Proof.
  unfold count_ops. induction ops as [|op ops IH]; simpl; [done|].
  intros H. rewrite (H op) by (by left). apply IH. intros op' Hin.
  apply H. by right.
Qed.

Lemma count_ops_In f ops op : In op ops -> f op = true -> 0 < count_ops f ops.
Proof.
  unfold count_ops. intros Hin Hf.
  assert (In op (List.filter f ops)) as Hin' by (by apply filter_In).
  destruct (List.filter f ops); [done | simpl; lia].
Qed.

Lemma external_ops_not_kept d p : kept p = false -> external_ops d p = [].
Proof.
  unfold external_ops. intros ->. by destruct (get_address p).
Qed.

(** A counter that sees one call in the calls made for a kept record with
    id [k], and none in those made for any other id, counts the kept
    records with id [k]. *)
Lemma count_external_ops f k d props :
  (forall p, kept p = true ->
             count_ops f (external_ops d p)
             = if String.eqb (get_id p) k then 1 else 0) ->
  count_ops f (flat_map (external_ops d) props) = length (kept_with_id k props).
Proof.
  intros Hf. unfold kept_with_id.
  induction props as [|p props IH]; simpl; [done|].
  rewrite count_ops_app, IH. destruct (kept p) eqn:Hk; simpl.
  - rewrite (Hf p Hk). by destruct (String.eqb (get_id p) k).
  - by rewrite external_ops_not_kept.
Qed.

Lemma count_stored_ops_absent f k S d :
  (forall k' b, f (SetActive k' b) = true -> k' = k) ->
  ~ In k (Dict.keys d) ->
  count_ops f (flat_map (stored_ops S) (Dict.items d)) = 0.
Proof.
  intros Hf Hk. apply count_ops_none. intros op Hin.
  apply in_flat_map in Hin as ([k' e] & Hitem & Hop).
  apply In_stored_ops in Hop as (-> & _ & _). simpl.
  destruct (f (SetActive k' false)) eqn:E; [|done].
  apply Hf in E as ->. exfalso. apply Hk.
  change k with (fst (k, e)). by apply in_map.
Qed.


(** ** The guard of the first loop *)

(** A record whose [property_id] is the empty string is passed over. *)
Lemma empty_id_not_kept p : property_id p = Some (PStr "") -> kept p = false.
Proof.
  unfold kept, get_id. intros ->. simpl. by destruct (get_address p).
Qed.


(** A record without [property_id], or with a null one, gets the id
    ["None"], which the guard lets through. *)
Lemma missing_id_is_None p :
  property_id p = None \/ property_id p = Some PNone -> get_id p = "None".
Proof. unfold get_id. by intros [->| ->]. Qed.

Lemma missing_id_kept p a :
  property_id p = None \/ property_id p = Some PNone ->
  get_address p = Some a -> a ≠ "" -> kept p = true.
Proof.
  intros Hid Ha Hne. unfold kept. rewrite Ha, (missing_id_is_None p Hid).
  simpl. by apply truthy_spec.
Qed.

(** C1. The record [{"property_address": "12 Oak St"}], which has no
    [property_id], is not skipped: on an empty store the run puts the id
    ["None"] into the set of seen ids and issues [Insert("None", "12 Oak
    St")] for it, although the guard is meant to skip a record with a
    missing id. *)
Theorem C1_missing_id_not_skipped :
  let r := reconcile always_ok ∅ [oak_without_id] Dict.empty tt in
  property_id oak_without_id = None
  /\ r.2 = true
  /\ "None" ∈ appfolio_ids r.1
  /\ calls r.1 = [Insert "None" "12 Oak St"]
  /\ added (stats r.1) = 1.
Proof.
  simpl. split_and!; reflexivity.
Qed.

(** ** Inserts and reactivations *)

Section PerRecord.
Context {W : Type}.
Variable http : request -> W -> bool * W.
Variable environ : environment.

Lemma count_insert_external k d p :
  Dict.get k d = None -> kept p = true ->
  count_ops (is_insert k) (external_ops d p)
  = if String.eqb (get_id p) k then 1 else 0.
Proof.
  intros Hd Hk. unfold external_ops. rewrite Hk.
  destruct (get_address p) as [a|] eqn:Ea;
    [|by apply kept_strippable in Hk; unfold strippable in Hk; rewrite Ea in Hk].
  destruct (String.eqb_spec (get_id p) k) as [->|Hne].
  - rewrite Hd. unfold count_ops. simpl. by rewrite String.eqb_refl.
  - destruct (Dict.get (get_id p) d) as [e|]; [by destruct (active e)|].
    unfold count_ops. simpl. by destruct (String.eqb_spec (get_id p) k).
Qed.

Lemma count_reactivate_external k d e p :
  Dict.get k d = Some e -> active e = false -> kept p = true ->
  count_ops (is_reactivate k) (external_ops d p)
  = if String.eqb (get_id p) k then 1 else 0.
Proof.
  intros Hd He Hk. unfold external_ops. rewrite Hk.
  destruct (get_address p) as [a|] eqn:Ea;
    [|by apply kept_strippable in Hk; unfold strippable in Hk; rewrite Ea in Hk].
  destruct (String.eqb_spec (get_id p) k) as [->|Hne].
  - rewrite Hd, He. unfold count_ops. simpl. by rewrite String.eqb_refl.
  - destruct (Dict.get (get_id p) d) as [e'|]; [|done].
    destruct (active e'); [done|].
    unfold count_ops. simpl. by destruct (String.eqb_spec (get_id p) k).
Qed.

Lemma no_insert_stored k S d :
  count_ops (is_insert k) (flat_map (stored_ops S) (Dict.items d)) = 0.
Proof.
  apply count_ops_none. intros op Hin.
  apply in_flat_map in Hin as (item & _ & Hop).
  by apply In_stored_ops in Hop as (-> & _ & _).
Qed.

Lemma no_reactivate_stored k S d :
  count_ops (is_reactivate k) (flat_map (stored_ops S) (Dict.items d)) = 0.
Proof.
  apply count_ops_none. intros op Hin.
  apply in_flat_map in Hin as (item & _ & Hop).
  apply In_stored_ops in Hop as (-> & _ & _). simpl. apply andb_false_r.
Qed.

(** C2, as the code has it. For an id the store mapping lacks, a run that
    reaches its end issues one Insert per record of the external list that
    passes the guard with that id: exactly one when one such record
    exists, one for each occurrence when the id is repeated. *)
Theorem C2_one_insert_per_kept_record props d w k :
  (reconcile http environ props d w).2 = true ->
  Dict.get k d = None ->
  count_ops (is_insert k) (calls (reconcile http environ props d w).1)
  = length (kept_with_id k props).
Proof.
  intros Hb Hd.
  destruct (reconcile_finished http environ props d w Hb) as (_ & _ & ->).
  rewrite count_ops_app, no_insert_stored, Nat.add_0_r.
  apply count_external_ops. intros p. by apply count_insert_external.
Qed.

(** C3, as the code has it. For an id the store mapping holds on an
    inactive row, a run that reaches its end issues one reactivation per
    record of the external list that passes the guard with that id:
    exactly one when one such record exists, one for each occurrence when
    the id is repeated. *)
Theorem C3_one_reactivate_per_kept_record props d w k e :
  (reconcile http environ props d w).2 = true ->
  Dict.get k d = Some e -> active e = false ->
  count_ops (is_reactivate k) (calls (reconcile http environ props d w).1)
  = length (kept_with_id k props).
Proof.
  intros Hb Hd He.
  destruct (reconcile_finished http environ props d w Hb) as (_ & _ & ->).
  rewrite count_ops_app, no_reactivate_stored, Nat.add_0_r.
  apply count_external_ops. intros p. by apply (count_reactivate_external k d e).
Qed.
End PerRecord.

(** C2 fails as stated: the id ["7"] is absent from the empty store and
    comes with a non-empty name, yet the list that carries it twice gets
    two Inserts for it, not one. *)
Lemma C2_repeated_id_inserted_twice :
  let props := [elm; elm_again] in
  let r := reconcile always_ok ∅ props Dict.empty tt in
  Dict.get "7" (Dict.empty (V := sb_property)) = None
  /\ get_id elm = "7" /\ get_address elm = Some "1 Elm St"
  /\ get_id elm_again = "7" /\ get_address elm_again = Some "1 Elm Street"
  /\ calls r.1 = [Insert "7" "1 Elm St"; Insert "7" "1 Elm Street"]
  /\ count_ops (is_insert "7") (calls r.1) ≠ 1.
Proof. simpl. split_and!; try reflexivity. vm_compute. discriminate. Qed.

Lemma C2_witness :
  count_ops (is_insert "7")
    (calls (reconcile always_ok ∅ [elm; blank_name] Dict.empty tt).1) = 1.
Proof.
  exact (C2_one_insert_per_kept_record always_ok ∅ [elm; blank_name]
           Dict.empty tt "7" eq_refl eq_refl).
Defined.

(** C3 fails as stated: the store holds ["7"] on an inactive row and the
    list carries ["7"] twice with non-empty names; the run issues two
    reactivations for it, not one. *)
Lemma C3_repeated_id_reactivated_twice :
  let props := [elm; elm_again] in
  let d := index_by_appfolio_id [row_7 false] in
  let r := reconcile always_ok ∅ props d tt in
  Dict.get "7" d = Some (row_7 false) /\ active (row_7 false) = false
  /\ get_id elm = "7" /\ get_address elm = Some "1 Elm St"
  /\ get_id elm_again = "7" /\ get_address elm_again = Some "1 Elm Street"
  /\ calls r.1 = [SetActive "7" true; SetActive "7" true]
  /\ count_ops (is_reactivate "7") (calls r.1) ≠ 1.
Proof. simpl. split_and!; try reflexivity. vm_compute. discriminate. Qed.

Lemma C3_witness :
  count_ops (is_reactivate "7")
    (calls (reconcile always_ok ∅ [elm; blank_name]
              (index_by_appfolio_id [row_7 false]) tt).1) = 1.
Proof.
  exact (C3_one_reactivate_per_kept_record always_ok ∅ [elm; blank_name]
           (index_by_appfolio_id [row_7 false]) tt "7" (row_7 false)
           eq_refl eq_refl eq_refl).
Defined.

(** ** Deactivations *)

Lemma elem_of_inserted_ids k ops :
  k ∈ inserted_ids ops <-> exists a, In (Insert k a) ops.
Proof.
  unfold inserted_ids. rewrite elem_of_list_to_set, list_elem_of_omap. split.
  - intros (op & Hin%list_elem_of_In & E).
    destruct op as [k' a|]; [|done]. injection E as ->. by exists a.
  - intros (a & Hin). exists (Insert k a). by rewrite list_elem_of_In.
Qed.

Lemma elem_of_reactivated_ids k ops :
  k ∈ reactivated_ids ops <-> In (SetActive k true) ops.
Proof.
  unfold reactivated_ids. rewrite elem_of_list_to_set, list_elem_of_omap. split.
  - intros (op & Hin%list_elem_of_In & E).
    destruct op as [|k' []]; [done| |done]. by injection E as ->.
  - intros Hin. exists (SetActive k true). by rewrite list_elem_of_In.
Qed.

Lemma elem_of_deactivated_ids k ops :
  k ∈ deactivated_ids ops <-> In (SetActive k false) ops.
Proof.
  unfold deactivated_ids. rewrite elem_of_list_to_set, list_elem_of_omap. split.
  - intros (op & Hin%list_elem_of_In & E).
    destruct op as [|k' []]; [done..|]. by injection E as ->.
  - intros Hin. exists (SetActive k false). by rewrite list_elem_of_In.
Qed.

Section PerRow.
Context {W : Type}.
Variable http : request -> W -> bool * W.
Variable environ : environment.




(** C8. In any run, whether it reaches its end or not, the ids that
    receive an Insert, the ids that receive a reactivation and the ids
    that receive a deactivation are pairwise disjoint. *)
Theorem C8_operation_sets_disjoint props d w :
  let ops := calls (reconcile http environ props d w).1 in
  inserted_ids ops ## reactivated_ids ops
  /\ inserted_ids ops ## deactivated_ids ops
  /\ reactivated_ids ops ## deactivated_ids ops.
Proof.
  intros ops. subst ops.
  assert (forall k a, In (Insert k a) (calls (reconcile http environ props d w).1) ->
            k ∈ appfolio_ids (reconcile http environ props d w).1
            /\ Dict.get k d = None) as Hins.
  { intros k a Hin.
    destruct (call_origin http environ props d w _ Hin)
      as [(HS & [(a' & _ & Hd)|(x & E & _)])|(_ & _ & x & E & _)]; done. }
  assert (forall k, In (SetActive k true) (calls (reconcile http environ props d w).1) ->
            k ∈ appfolio_ids (reconcile http environ props d w).1
            /\ exists x, Dict.get k d = Some x) as Hre.
  { intros k Hin.
    destruct (call_origin http environ props d w _ Hin)
      as [(HS & [(a' & E & _)|(x & _ & Hd & _)])|(_ & _ & x & E & _)];
      [done| |done]. split; [done | by exists x]. }
  assert (forall k, In (SetActive k false) (calls (reconcile http environ props d w).1) ->
            k ∉ appfolio_ids (reconcile http environ props d w).1) as Hde.
  { intros k Hin.
    destruct (call_origin http environ props d w _ Hin)
      as [(HS & [(a' & E & _)|(x & E & _)])|(_ & HS & _)]; done. }
  split_and!; intros k.
  - intros (a & [_ Hn]%Hins)%elem_of_inserted_ids
           [_ [x Hs]]%elem_of_reactivated_ids%Hre. congruence.
  - intros (a & [HS _]%Hins)%elem_of_inserted_ids
           HnS%elem_of_deactivated_ids%Hde. done.
  - intros [HS _]%elem_of_reactivated_ids%Hre
           HnS%elem_of_deactivated_ids%Hde. done.
Qed.
End PerRow.

(** ** What a write may touch *)

Lemma apply_op_identity op table :
  exists new,
    map identity_of (apply_op op table) = map identity_of table ++ new.
Proof.
  destruct op as [k name|k b]; simpl.
  - eexists. by rewrite map_app.
  - exists []. rewrite app_nil_r, map_map. apply map_ext. intros r.
    destruct (appfolio_id r) as [k'|]; [|done]. by destruct (String.eqb k' k).
Qed.

Lemma apply_ops_identity ops table :
  exists new,
    map identity_of (apply_ops ops table) = map identity_of table ++ new.
Proof.
  unfold apply_ops. revert table.
  induction ops as [|op ops IH]; intros table; simpl.
  - exists []. by rewrite app_nil_r.
  - destruct (IH (apply_op op table)) as [new2 ->].
    destruct (apply_op_identity op table) as [new1 ->].
    exists (new1 ++ new2). by rewrite app_assoc.
Qed.

Lemma set_active_other_rows k b table r :
  In r table -> appfolio_id r ≠ Some k -> In r (apply_op (SetActive k b) table).
Proof.
  intros Hin Hne. simpl. apply in_map_iff. exists r. split; [|done].
  destruct (appfolio_id r) as [k'|]; [|done].
  destruct (String.eqb_spec k' k) as [->|]; [done|done].
Qed.

(** C9. The PATCH built by [update_property_status] filters on the given
    external id and its payload holds the [active] flag and nothing else;
    on the table, a SetActive keeps the id, address and external id of
    every row and leaves the rows of other external ids as they are; the
    calls of a run, applied to a table, leave the id, address and external
    id of every row it had; and an id that a kept record of the external
    list shares with an active row of the store mapping is the target of
    no call at all, whatever name the record carries. *)
Theorem C9_only_the_active_flag {W : Type} (http : request -> W -> bool * W)
  environ props d w :
  let r := reconcile http environ props d w in
  (forall k b,
     method (update_request environ k b) = PATCH
     /\ params (update_request environ k b) = [("appfolio_id", "eq." +:+ k)]
     /\ json (update_request environ k b) = [("active", PBool b)])
  /\ (forall table k b,
        map identity_of (apply_op (SetActive k b) table) = map identity_of table
        /\ forall row, In row table -> appfolio_id row ≠ Some k ->
                       In row (apply_op (SetActive k b) table))
  /\ (forall table, exists new,
        map identity_of (apply_ops (calls r.1) table)
        = map identity_of table ++ new)
  /\ (forall k e p,
        Dict.get k d = Some e -> active e = true ->
        In p props -> kept p = true -> get_id p = k ->
        count_ops (targets k) (calls r.1) = 0).
Proof.
  intros r. subst r. split_and!.
  - done.
  - intros table k b. split; [|intros row; apply set_active_other_rows].
    simpl. rewrite map_map. apply map_ext. intros x.
    destruct (appfolio_id x) as [k'|]; [|done]. by destruct (String.eqb k' k).
  - intros table. apply apply_ops_identity.
  - intros k e p Hd He Hp Hk Hid. apply count_ops_none. intros op Hin.
    unfold targets. apply String.eqb_neq. intros Ht.
    destruct (call_origin http environ props d w op Hin)
      as [(_ & [(a & _ & Hn)|(x & _ & Hs & Hx)])|(Hb & HnS & _)];
      rewrite Ht in *.
    + congruence.
    + congruence.
    + destruct (reconcile_finished http environ props d w Hb) as (_ & Hids & _).
      apply HnS. rewrite Hids. apply elem_of_kept_ids. by exists p.
Qed.

(** ** Exit status *)





(** ** A second run *)

Lemma flag_apply_op k op table :
  flag k (apply_op op table) = flag_step k (flag k table) op.
Proof.
  unfold flag. destruct op as [k' a|k' b]; simpl.
  - rewrite last_with_id_snoc. simpl. by destruct (String.eqb k' k).
  - unfold last_with_id. rewrite <- map_rev.
    induction (rev table) as [|r l IH]; simpl.
    + by destruct (String.eqb k' k).
    + destruct (appfolio_id r) as [k0|] eqn:E0.
      * destruct (String.eqb_spec k0 k') as [->|Hne]; simpl; rewrite E0.
        -- destruct (String.eqb_spec k' k) as [->|Hk]; simpl; [done|].
           rewrite IH. by destruct (String.eqb_spec k' k).
        -- destruct (String.eqb_spec k0 k) as [->|Hk]; simpl; [|done].
           by destruct (String.eqb_spec k' k) as [->|].
      * simpl. by rewrite E0.
Qed.

Lemma flag_apply_ops k ops table :
  flag k (apply_ops ops table) = fold_left (flag_step k) ops (flag k table).
Proof.
  unfold apply_ops. revert table.
  induction ops as [|op ops IH]; intros table; simpl; [done|].
  by rewrite IH, flag_apply_op.
Qed.

(** With no deactivation of [k] among the operations, the flag ends up
    set as soon as it starts set, an Insert of [k] occurs, or a
    reactivation of [k] occurs on an existing row. *)
Lemma flag_ends_set k ops s :
  ~ In (SetActive k false) ops ->
  (s = Some true
   \/ (exists a, In (Insert k a) ops)
   \/ (s ≠ None /\ In (SetActive k true) ops)) ->
  fold_left (flag_step k) ops s = Some true.
Proof.
  revert s. induction ops as [|op ops IH]; intros s Hno Hs; simpl.
  - destruct Hs as [Hs|[[a []]|[_ []]]]. done.
  - apply IH; [intros Hin; apply Hno; by right|].
    destruct op as [k' a|k' b]; simpl;
      destruct (String.eqb_spec k' k) as [->|Hne].
    + by left.
    + destruct Hs as [Hs|[[a' [E|Hin]]|[Hs [E|Hin]]]];
        [by left|congruence|right; left; by exists a'|done|by right; right].
    + destruct b; [|destruct Hno; by left].
      destruct Hs as [->|[[a' [E|Hin]]|[Hs Hin]]];
        [by left|done|right; left; by exists a'|].
      left. by destruct s.
    + destruct Hs as [Hs|[[a' [E|Hin]]|[Hs [E|Hin]]]];
        [by left|done|right; left; by exists a'|congruence|by right; right].
Qed.

(** With no Insert and no reactivation of [k] among the operations, the
    flag ends up unset as soon as it starts unset or a deactivation of
    [k] occurs. *)
Lemma flag_ends_unset k ops s :
  (forall a, ~ In (Insert k a) ops) ->
  ~ In (SetActive k true) ops ->
  (s ≠ Some true \/ In (SetActive k false) ops) ->
  fold_left (flag_step k) ops s ≠ Some true.
Proof.
  revert s. induction ops as [|op ops IH]; intros s Hni Hnr Hs; simpl.
  - by destruct Hs as [Hs|[]].
  - apply IH;
      [intros a Hin; apply (Hni a); by right|intros Hin; apply Hnr; by right|].
    destruct op as [k' a|k' b]; simpl;
      destruct (String.eqb_spec k' k) as [->|Hne].
    + destruct (Hni a). by left.
    + destruct Hs as [Hs|[E|Hin]]; [by left|done|by right].
    + destruct b; [destruct Hnr; by left|]. left. by destruct s.
    + destruct Hs as [Hs|[E|Hin]]; [by left|congruence|by right].
Qed.

Lemma flat_map_nil {A B : Type} (f : A -> list B) (l : list A) :
  (forall x, In x l -> f x = []) -> flat_map f l = [].
Proof.
  induction l as [|x l IH]; simpl; [done|].
  intros H. rewrite (H x) by (by left). apply IH. intros y Hy. apply H. by right.
Qed.

Lemma flag_index k rows :
  truthy k = true ->
  active <$> Dict.get k (index_by_appfolio_id rows) = flag k rows.
Proof. intros Hk. by rewrite index_get, Hk. Qed.

Lemma kept_truthy_id p : kept p = true -> truthy (get_id p) = true.
Proof.
  unfold kept. destruct (get_address p); [|done]. by intros [? _]%andb_true_iff.
Qed.

Section SecondRun.
Context {W W' : Type}.
Variable http : request -> W -> bool * W.
Variable environ : environment.
Variable http' : request -> W' -> bool * W'.
Variable environ' : environment.
Variable props : list af_property.
Variable rows : list sb_property.
Variable w : W.

Abbreviation d := (index_by_appfolio_id rows).
Abbreviation r1 := (first_run http environ props rows w).
Abbreviation rows' := (table_after http environ props rows w).
Abbreviation d' := (index_by_appfolio_id rows').

Hypothesis finished : r1.2 = true.

(** After the first run's calls took effect, every kept id sits on an
    active row of the index. *)
Lemma kept_id_active_after p :
  In p props -> kept p = true ->
  exists x, Dict.get (get_id p) d' = Some x /\ active x = true.
Proof.
  intros Hp Hk. pose proof (kept_truthy_id p Hk) as Ht.
  pose proof finished as Hfin. unfold first_run in Hfin.
  destruct (reconcile_finished http environ props d w Hfin)
    as (_ & Hids & Hcalls).
  assert (flag (get_id p) rows' = Some true) as Hflag.
  { unfold table_after, first_run. rewrite flag_apply_ops.
    apply flag_ends_set.
    - intros Hin.
      destruct (call_origin http environ props d w _ Hin)
        as [(_ & [(a & E & _)|(x & E & _)])|(_ & HnS & _)]; [done..|].
      apply HnS. simpl. rewrite Hids. apply elem_of_kept_ids. by exists p.
    - rewrite <- (flag_index _ _ Ht), Hcalls.
      assert (forall op, In op (external_ops d p) ->
                In op (flat_map (external_ops d) props
                       ++ flat_map (stored_ops (kept_ids props)) (Dict.items d)))
        as Hext.
      { intros op Hop. apply in_app_iff. left. apply in_flat_map. by exists p. }
      unfold external_ops in Hext. rewrite Hk in Hext.
      destruct (get_address p) as [a|] eqn:Ea;
        [|by apply kept_strippable in Hk; unfold strippable in Hk;
             rewrite Ea in Hk].
      destruct (Dict.get (get_id p) d) as [e|]; simpl.
      + destruct (active e); [by left|].
        right. right. split; [done|]. apply Hext. by left.
      + right. left. exists a. apply Hext. by left. }
  unfold flag in Hflag. rewrite index_get, Ht.
  destruct (last_with_id (get_id p) rows') as [x|]; [|done].
  exists x. split; [done|]. by injection Hflag.
Qed.

(** After the first run's calls took effect, no id outside the set of
    seen ids sits on an active row of the index. *)
Lemma unseen_id_inactive_after k e :
  In (k, e) (Dict.items d') -> k ∉ kept_ids props -> active e = false.
Proof.
  intros Hin HnS.
  apply (dict_In_get k e d' (index_wf rows')) in Hin.
  rewrite index_get in Hin.
  destruct (truthy k) eqn:Ht; [|done].
  pose proof finished as Hfin. unfold first_run in Hfin.
  destruct (reconcile_finished http environ props d w Hfin)
    as (_ & Hids & Hcalls).
  assert (flag k rows' ≠ Some true) as Hflag.
  { unfold table_after, first_run. rewrite flag_apply_ops.
    apply flag_ends_unset.
    - intros a Ha.
      destruct (call_origin http environ props d w _ Ha)
        as [(HS & _)|(_ & _ & x & E & _)]; [|done].
      simpl in HS. by rewrite Hids in HS.
    - intros Ha.
      destruct (call_origin http environ props d w _ Ha)
        as [(HS & _)|(_ & _ & x & E & _)]; [|done].
      simpl in HS. by rewrite Hids in HS.
    - rewrite <- (flag_index _ _ Ht), Hcalls.
      destruct (Dict.get k d) as [e0|] eqn:Ed; simpl; [|by left].
      destruct (active e0) eqn:Ea; [|by left].
      right. apply in_app_iff. right. apply in_flat_map. exists (k, e0).
      split; [by apply dict_get_In|].
      unfold stored_ops. simpl. rewrite Ea, bool_decide_eq_false_2 by done.
      by left. }
  unfold flag in Hflag. rewrite Hin in Hflag. simpl in Hflag.
  by destruct (active e).
Qed.

(** C6. Take a run over the index of a table that reaches its end with
    no write error, and the table its calls leave behind once they all
    took effect.  A second run over the same external list and the index
    of that table reaches its end without a single call: nothing is
    inserted, reactivated or deactivated, no error is counted, and every
    record that passes the guard is counted as unchanged. *)
Theorem C6_second_run_is_quiet (w' : W') :
  errors (stats r1.1) = 0 ->
  let r2 := reconcile http' environ' props d' w' in
  r2.2 = true
  /\ calls r2.1 = []
  /\ world r2.1 = w'
  /\ stats r2.1
     = {| added := 0; reactivated := 0; deactivated := 0;
          unchanged := length (List.filter kept props); errors := 0 |}.
Proof.
  intros _ r2. subst r2.
  destruct (reconcile_spec http environ props d w) as (Hb1 & _).
  destruct (reconcile_spec http' environ' props d' w')
    as (Hb & _ & Hc & _ & Hu & Hw & He & Hn).
  pose proof finished as Hfin. unfold first_run in Hfin.
  simpl in *. rewrite Hfin in Hb1. symmetry in Hb1.
  rewrite Hb1 in Hb. rewrite Hb in Hc, Hw, He, Hn.
  rewrite (processed_all props Hb1) in Hc, Hu, Hw, He, Hn.
  assert (flat_map (external_ops d') props = []) as Hext.
  { apply flat_map_nil. intros p Hp.
    destruct (kept p) eqn:Hk; [|by apply external_ops_not_kept].
    destruct (kept_id_active_after p Hp Hk) as (x & Hx & Hax).
    unfold external_ops. rewrite Hk, Hx, Hax. by destruct (get_address p). }
  assert (flat_map (stored_ops (kept_ids props)) (Dict.items d') = []) as Hsto.
  { apply flat_map_nil. intros [k e] Hin. unfold stored_ops. simpl.
    destruct (bool_decide (k ∈ kept_ids props)) eqn:Ek; [done|].
    apply bool_decide_eq_false in Ek.
    by rewrite (unseen_id_inactive_after k e Hin Ek). }
  assert (List.filter (in_sync d') props = List.filter kept props) as Hsync.
  { apply filter_ext_in. intros p Hp. unfold in_sync.
    destruct (kept p) eqn:Hk; [|done].
    destruct (kept_id_active_after p Hp Hk) as (x & -> & ->). done. }
  rewrite Hext, Hsto in Hc, Hw, He, Hn. rewrite Hsync in Hu.
  unfold failures, writes_counted in *. simpl in *.
  split_and!; [done..|].
  destruct (stats (reconcile http' environ' props d' w').1) as [a r de u er].
  simpl in *. f_equal; lia.
Qed.
End SecondRun.

(** ** The theorems at work on the sample data *)





Lemma C6_witness :
  let props := [elm; blank_name; oak_without_id] in
  let rows := [row_7 false; row_9 true; row_null; row_empty] in
  let r1 := reconcile always_ok ∅ props (index_by_appfolio_id rows) tt in
  let r2 :=
    reconcile always_ok ∅ props
      (index_by_appfolio_id (apply_ops (calls r1.1) rows)) tt in
  calls r1.1 = [SetActive "7" true; Insert "None" "12 Oak St"; SetActive "9" false]
  /\ calls r2.1 = []
  /\ unchanged (stats r2.1) = 2.
Proof.
  intros props rows r1 r2.
  destruct (C6_second_run_is_quiet always_ok ∅ always_ok ∅ props rows tt
              eq_refl tt eq_refl) as (_ & Hcalls & _ & Hstats).
  split_and!; [reflexivity | exact Hcalls | exact (f_equal unchanged Hstats)].
Defined.



Lemma C9_witness :
  count_ops (targets "7")
    (calls (reconcile always_ok ∅ [elm_again]
              (index_by_appfolio_id [row_7 true]) tt).1) = 0.
Proof.
  destruct (C9_only_the_active_flag always_ok ∅ [elm_again]
              (index_by_appfolio_id [row_7 true]) tt) as (_ & _ & _ & Hnone).
  apply (Hnone "7" (row_7 true) elm_again); try reflexivity.
  by left.
Defined.

Lemma C10_witness :
  let rows := [row_7 false; row_null; row_empty; row_9 true] in
  Dict.get "9" (index_by_appfolio_id rows) = Some (row_9 true)
  /\ Dict.get "" (index_by_appfolio_id rows) = None
  /\ Dict.keys (index_by_appfolio_id rows) = ["7"; "9"].
Proof.
  intros rows.
  assert (unique_ids rows) as Huniq.
  { unfold unique_ids. simpl. by apply (bool_decide_unpack (NoDup _)). }
  split_and!; [| |reflexivity].
  - apply (C10_index_holds_exactly_rows_with_id rows Huniq).
    split_and!; [vm_compute; tauto | reflexivity | discriminate].
  - destruct (Dict.get "" (index_by_appfolio_id rows)) as [r|] eqn:E;
      [|reflexivity].
    apply (C10_index_holds_exactly_rows_with_id rows Huniq) in E
      as (_ & _ & Hne).
    by destruct Hne.
Defined.

(** * Further properties of the script *)

(** ** The store reader, without the uniqueness invariant *)

Lemma last_with_id_found k rows r :
  In r rows -> appfolio_id r = Some k -> last_with_id k rows ≠ None.
Proof.
  intros Hin E Hnone. by destruct (last_with_id_None k rows r Hnone Hin).
Qed.

(** X1. On any table, also one in which ids repeat: the index binds a
    non-empty id to the last fetched row that carries it and never binds
    the empty string; its keys are the non-empty ids that occur in the
    table; and a row appended to the table takes the place of any earlier
    row with its id. *)
Theorem X1_index_keeps_last_row rows k :
  Dict.get k (index_by_appfolio_id rows)
  = (if String.eqb k "" then None else last_with_id k rows)
  /\ (In k (Dict.keys (index_by_appfolio_id rows))
      <-> k ≠ "" /\ exists r, In r rows /\ appfolio_id r = Some k)
  /\ (forall r, appfolio_id r = Some k -> k ≠ "" ->
                Dict.get k (index_by_appfolio_id (rows ++ [r])) = Some r).
Proof.
  assert (Dict.get k (index_by_appfolio_id rows)
          = if String.eqb k "" then None else last_with_id k rows) as Hget.
  { rewrite index_get. unfold truthy. by destruct (String.eqb k ""). }
  split_and!; [done| |].
  - split.
    + intros Hin.
      destruct (Dict.get k (index_by_appfolio_id rows)) as [r|] eqn:E;
        [|by apply dict_get_None in E].
      rewrite Hget in E. destruct (String.eqb_spec k "") as [->|Hne]; [done|].
      split; [done|]. exists r. by apply last_with_id_Some.
    + intros (Hne & r & Hin & E).
      destruct (Dict.get k (index_by_appfolio_id rows)) as [x|] eqn:Ex.
      * apply dict_get_In in Ex. change k with (fst (k, x)). by apply in_map.
      * rewrite Hget in Ex. destruct (String.eqb_spec k ""); [done|].
        by destruct (last_with_id_found k rows r Hin E).
  - intros r E Hne%truthy_spec.
    by rewrite index_snoc, E, Hne, dict_get_set_eq.
Qed.

(** ** The environment check *)

(** X8. The variables reported missing are exactly the required ones that
    are unset or set to the empty string, and as soon as there is one the
    run ends there, whatever the two services would have answered. *)
Theorem X8_missing_or_empty_variable_stops_the_run {W : Type}
  (http : request -> W -> bool * W) environ appfolio supabase w :
  (forall var,
     In var (missing_vars environ)
     <-> In var required_vars
         /\ (environ !! var = None \/ environ !! var = Some ""))
  /\ (missing_vars environ ≠ [] ->
      sync_properties http environ appfolio supabase w
      = MissingEnvironment (missing_vars environ)).
Proof.
  split.
  - intros var. unfold missing_vars. rewrite filter_In.
    destruct (environ !! var) as [v|]; simpl.
    + rewrite negb_true_iff, truthy_false. split.
      * intros [Hin ->]. split; [done | by right].
      * intros [Hin [E|E]]; [done|]. by injection E as ->.
    + split; [intros [Hin _]; split; [done | by left] | by intros [Hin _]].
  - intros Hne. unfold sync_properties. by destruct (missing_vars environ).
Qed.

Lemma X8_witness :
  sync_properties always_ok (<["SUPABASE_SERVICE_KEY" := ""]> full_environ)
    (Response {| results := Some [elm] |}) (Response [row_9 true]) tt
  = MissingEnvironment ["SUPABASE_SERVICE_KEY"].
Proof.
  refine (proj2 (X8_missing_or_empty_variable_stops_the_run always_ok
                   (<["SUPABASE_SERVICE_KEY" := ""]> full_environ)
                   (Response {| results := Some [elm] |})
                   (Response [row_9 true]) tt) _).
  vm_compute. discriminate.
Defined.

(** ** The set of seen ids *)

Lemma processed_In p props : In p (processed props) -> In p props.
Proof.
  induction props as [|q props IH]; simpl; [done|].
  destruct (strippable q); [|done]. intros [->|Hin]; [by left | right; auto].
Qed.

Lemma seen_id_nonempty {W : Type} (http : request -> W -> bool * W)
  environ props d w k :
  k ∈ appfolio_ids (reconcile http environ props d w).1 -> k ≠ "".
Proof.
  destruct (reconcile_spec http environ props d w) as (_ & Hids & _).
  simpl in Hids. rewrite Hids.
  intros (p & _ & Hk & <-)%elem_of_kept_ids.
  by apply truthy_spec, kept_truthy_id.
Qed.

(** X11. Every id the run puts into the set of seen ids is non-empty and
    is the id of a record of the external list that passes the guard; in a
    run that reaches its end the set holds the id of every such record. *)
Theorem X11_seen_ids_are_kept_ids {W : Type} (http : request -> W -> bool * W)
  environ props d w :
  (forall k,
     k ∈ appfolio_ids (reconcile http environ props d w).1 ->
     k ≠ "" /\ exists p, In p props /\ kept p = true /\ get_id p = k)
  /\ ((reconcile http environ props d w).2 = true ->
      forall p, In p props -> kept p = true ->
                get_id p ∈ appfolio_ids (reconcile http environ props d w).1).
Proof.
  split.
  - intros k.
    destruct (reconcile_spec http environ props d w) as (_ & Hids & _).
    simpl in Hids. rewrite Hids.
    intros (p & Hp%processed_In & Hk & <-)%elem_of_kept_ids.
    split; [by apply truthy_spec, kept_truthy_id | by exists p].
  - intros Hb p Hp Hk.
    destruct (reconcile_finished http environ props d w Hb) as (_ & -> & _).
    apply elem_of_kept_ids. by exists p.
Qed.

Lemma X11_witness :
  let r := reconcile always_ok ∅ [elm; blank_name; oak_without_id] Dict.empty tt in
  "7" ∈ appfolio_ids r.1
  /\ exists p, In p [elm; blank_name; oak_without_id]
               /\ kept p = true /\ get_id p = "None".
Proof.
  intros r.
  destruct (X11_seen_ids_are_kept_ids always_ok ∅
              [elm; blank_name; oak_without_id] Dict.empty tt) as [Hin Hall].
  split.
  - apply (Hall eq_refl elm); [by left | reflexivity].
  - apply (Hin "None"). reflexivity.
Defined.

(** ** What an Insert carries *)

Lemma lstrip_first s c : first_char (lstrip s) = Some c -> py_isspace c = false.
Proof.
  induction s as [|a s IH]; simpl; [done|].
  destruct (py_isspace a) eqn:Ea; [done|]. simpl. by intros [= <-].
Qed.

Lemma rstrip_first s c : first_char (rstrip s) = Some c -> first_char s = Some c.
Proof.
  destruct s as [|a s]; simpl; [done|].
  destruct (rstrip s); [|done]. by destruct (py_isspace a).
Qed.

Lemma last_char_cons a s : last_char (String a s) ≠ None.
Proof. simpl. by destruct (last_char s). Qed.

Lemma rstrip_last s c : last_char (rstrip s) = Some c -> py_isspace c = false.
Proof.
  induction s as [|a s IH]; simpl; [done|].
  destruct (rstrip s) as [|b t] eqn:E.
  - destruct (py_isspace a) eqn:Ea; simpl; [done|]. by intros [= <-].
  - pose proof (last_char_cons b t) as Hne.
    change (last_char (String a (String b t)))
      with (match last_char (String b t) with
            | None => Some a
            | Some c' => Some c'
            end).
    destruct (last_char (String b t)) as [c'|]; [|done].
    intros [= <-]. by apply IH.
Qed.

Lemma strip_no_outer_space s :
  (forall c, first_char (strip s) = Some c -> py_isspace c = false)
  /\ (forall c, last_char (strip s) = Some c -> py_isspace c = false).
Proof.
  unfold strip. split; intros c H.
  - by apply rstrip_first, lstrip_first in H.
  - by apply rstrip_last in H.
Qed.

Lemma In_calls_split {W : Type} (http : request -> W -> bool * W)
  environ props d w op :
  In op (calls (reconcile http environ props d w).1) ->
  (exists p, In p props /\ In op (external_ops d p))
  \/ (exists item, In item (Dict.items d)
                   /\ In op (stored_ops
                               (appfolio_ids (reconcile http environ props d w).1)
                               item)).
Proof.
  pose proof (reconcile_calls http environ props d w) as Hc.
  destruct (reconcile_spec http environ props d w) as (_ & Hids & _).
  simpl in *. rewrite Hc, Hids. intros [Hin|Hin]%in_app_iff.
  - left. apply in_flat_map in Hin as (p & Hp%processed_In & Hop). by exists p.
  - right. destruct (reconcile http environ props d w).2; [|done].
    apply in_flat_map in Hin as (item & Hitem & Hop). by exists item.
Qed.

(** X2. Every Insert a run issues carries a non-empty id that the store
    mapping lacks, and as its name the address of a record with that id,
    stripped: the name is non-empty and neither begins nor ends with a
    whitespace character. *)
Theorem X2_insert_carries_stripped_address {W : Type}
  (http : request -> W -> bool * W) environ props d w k name :
  In (Insert k name) (calls (reconcile http environ props d w).1) ->
  k ≠ "" /\ name ≠ "" /\ Dict.get k d = None
  /\ (forall c, first_char name = Some c -> py_isspace c = false)
  /\ (forall c, last_char name = Some c -> py_isspace c = false)
  /\ exists p raw,
       In p props /\ get_id p = k
       /\ property_address p = Some (PStr raw) /\ name = strip raw.
Proof.
  intros [(p & Hp & Hop)|(item & _ & Hop)]%In_calls_split;
    [|by apply In_stored_ops in Hop as (? & _)].
  apply In_external_ops in Hop
    as (Hk & _ & [(a & Ha & [= -> ->] & Hd)|(e & ? & _)]); [|done].
  pose proof (kept_truthy_id p Hk) as Hid%truthy_spec.
  assert (a ≠ "") as Hname.
  { unfold kept in Hk. rewrite Ha in Hk.
    by apply andb_true_iff in Hk as [_ ?%truthy_spec]. }
  assert (exists raw, property_address p = Some (PStr raw) /\ a = strip raw)
    as (raw & Hraw & ->).
  { unfold get_address in Ha.
    destruct (property_address p) as [[| | |raw]|]; try done.
    - exists raw. split; [done|]. by injection Ha.
    - injection Ha as <-. by destruct Hname. }
  destruct (strip_no_outer_space raw) as [Hfirst Hlast].
  split_and!; [done..|]. by exists p, raw.
Qed.

Lemma X2_witness :
  exists p raw,
    In p [elm; blank_name] /\ get_id p = "7"
    /\ property_address p = Some (PStr raw) /\ "1 Elm St" = strip raw.
Proof.
  apply (X2_insert_carries_stripped_address always_ok ∅ [elm; blank_name]
           Dict.empty tt "7" "1 Elm St").
  vm_compute. by left.
Defined.

(** ** What a status update answers to *)

(** X3. A run reactivates an id only when the store mapping holds it on
    an inactive row and a record that passes the guard carries it; it
    deactivates an id only after the whole external list was read, when
    the store mapping holds the id on an active row and no record that
    passes the guard carries it. *)
Theorem X3_status_updates_are_called_for {W : Type}
  (http : request -> W -> bool * W) environ props d w k :
  (In (SetActive k true) (calls (reconcile http environ props d w).1) ->
   exists e p,
     Dict.get k d = Some e /\ active e = false
     /\ In p props /\ kept p = true /\ get_id p = k)
  /\ (In (SetActive k false) (calls (reconcile http environ props d w).1) ->
      (reconcile http environ props d w).2 = true
      /\ (exists e, In (k, e) (Dict.items d) /\ active e = true)
      /\ forall p, In p props -> kept p = true -> get_id p ≠ k).
Proof.
  split.
  - intros [(p & Hp & Hop)|(item & _ & Hop)]%In_calls_split;
      [|by apply In_stored_ops in Hop as (? & _)].
    apply In_external_ops in Hop
      as (Hk & _ & [(a & _ & ? & _)|(e & [= ->] & Hd & He)]); [done|].
    by exists e, p.
  - intros Hin.
    destruct (call_origin http environ props d w _ Hin)
      as [(_ & [(a & ? & _)|(e & ? & _)])|(Hb & HnS & e & _ & He & Ha)];
      [done..|].
    simpl in *. split_and!; [done|by exists e|].
    intros p Hp Hk E. apply HnS.
    destruct (reconcile_finished http environ props d w Hb) as (_ & -> & _).
    apply elem_of_kept_ids. by exists p.
Qed.

Lemma X3_witness :
  let d := index_by_appfolio_id [row_7 false; row_9 true] in
  (exists e p, Dict.get "7" d = Some e /\ active e = false
               /\ In p [elm; blank_name] /\ kept p = true /\ get_id p = "7")
  /\ forall p, In p [elm; blank_name] -> kept p = true -> get_id p ≠ "9".
Proof.
  intros d.
  destruct (X3_status_updates_are_called_for always_ok ∅ [elm; blank_name]
              d tt "7") as [Hre _].
  destruct (X3_status_updates_are_called_for always_ok ∅ [elm; blank_name]
              d tt "9") as [_ Hde].
  split.
  - apply Hre. vm_compute. by left.
  - apply Hde. vm_compute. right. by left.
Defined.

(** ** Order and number of the calls *)

Lemma in_sync_kept d p : in_sync d p = true -> kept p = true.
Proof. unfold in_sync. by intros [? _]%andb_true_iff. Qed.

Lemma external_ops_cases d p :
  (needs_write d p = true
   /\ exists op, external_ops d p = [op] /\ target op = get_id p
                 /\ is_deactivation op = false)
  \/ (needs_write d p = false /\ external_ops d p = []).
Proof.
  unfold needs_write, in_sync, external_ops.
  destruct (kept p) eqn:Hk; simpl.
  - destruct (get_address p) as [a|] eqn:Ea;
      [|by apply kept_strippable in Hk; unfold strippable in Hk;
           rewrite Ea in Hk].
    destruct (Dict.get (get_id p) d) as [e|]; simpl.
    + destruct (active e); simpl; [by right|]. left. split; [done|]. by eexists.
    + left. split; [done|]. by eexists.
  - right. split; [done|]. by destruct (get_address p).
Qed.

Lemma external_targets d props :
  map target (flat_map (external_ops d) props)
  = map get_id (List.filter (needs_write d) props)
  /\ Forall (fun op => is_deactivation op = false)
       (flat_map (external_ops d) props).
Proof.
  induction props as [|p props [IH1 IH2]]; simpl; [by split|].
  destruct (external_ops_cases d p)
    as [(-> & op & -> & Ht & Hd)|(-> & ->)]; simpl.
  - split; [by rewrite Ht, IH1 | by constructor].
  - by split.
Qed.

Lemma stored_ops_map S items :
  flat_map (stored_ops S) items
  = map (fun item => SetActive item.1 false) (List.filter (unseen_active S) items).
Proof.
  induction items as [|item items IH]; simpl; [done|].
  unfold stored_ops at 1, unseen_active at 1.
  destruct (negb (bool_decide (item.1 ∈ S)) && active item.2); simpl;
    by rewrite IH.
Qed.

(** X4. In a run that reaches its end the calls come in two blocks.
    First, in the order of the external list, one Insert or reactivation
    for each record that passes the guard and does not find its id on an
    active row; then, in the order of the store mapping, one deactivation
    for each item whose key was not seen and whose row is active.  No
    deactivation precedes an Insert or a reactivation. *)
Theorem X4_roster_order_then_store_order {W : Type}
  (http : request -> W -> bool * W) environ props d w :
  (reconcile http environ props d w).2 = true ->
  exists first,
    calls (reconcile http environ props d w).1
    = first
      ++ map (fun item => SetActive item.1 false)
           (List.filter
              (unseen_active (appfolio_ids (reconcile http environ props d w).1))
              (Dict.items d))
    /\ map target first = map get_id (List.filter (needs_write d) props)
    /\ Forall (fun op => is_deactivation op = false) first.
Proof.
  intros Hb.
  destruct (reconcile_finished http environ props d w Hb) as (_ & -> & ->).
  exists (flat_map (external_ops d) props).
  destruct (external_targets d props) as [Ht Hd].
  by rewrite stored_ops_map.
Qed.

Lemma X4_witness :
  exists first,
    calls (reconcile always_ok ∅ [oak_without_id; elm; blank_name]
             (index_by_appfolio_id [row_9 true; row_7 false]) tt).1
    = first ++ [SetActive "9" false]
    /\ map target first = ["None"; "7"]
    /\ Forall (fun op => is_deactivation op = false) first.
Proof.
  exact (X4_roster_order_then_store_order always_ok ∅
           [oak_without_id; elm; blank_name]
           (index_by_appfolio_id [row_9 true; row_7 false]) tt eq_refl).
Defined.

Lemma kept_split d props :
  length (List.filter (in_sync d) props)
  + length (List.filter (needs_write d) props)
  = length (List.filter kept props).
Proof.
  unfold needs_write.
  induction props as [|p props IH]; simpl; [done|].
  destruct (in_sync d p) eqn:Hs; simpl.
  - rewrite (in_sync_kept d p Hs). simpl. lia.
  - destruct (kept p); simpl; lia.
Qed.

Lemma count_ops_all f ops :
  Forall (fun op => f op = true) ops -> count_ops f ops = length ops.
Proof.
  unfold count_ops. induction 1 as [|op ops Hop _ IH]; simpl; [done|].
  rewrite Hop. simpl. by rewrite IH.
Qed.

(** X5. In a run that reaches its end every record that passes the guard
    is accounted for exactly once, by an Insert or reactivation call or by
    the [unchanged] counter; [unchanged] counts the records whose id is on
    an active row of the store mapping; and the deactivation calls are as
    many as the items of the mapping with an unseen key and an active
    row. *)
Theorem X5_every_kept_record_counts_once {W : Type}
  (http : request -> W -> bool * W) environ props d w :
  (reconcile http environ props d w).2 = true ->
  let st := (reconcile http environ props d w).1 in
  unchanged (stats st) = length (List.filter (in_sync d) props)
  /\ unchanged (stats st)
     + count_ops (fun op => negb (is_deactivation op)) (calls st)
     = length (List.filter kept props)
  /\ count_ops is_deactivation (calls st)
     = length (List.filter (unseen_active (appfolio_ids st)) (Dict.items d)).
Proof.
  intros Hb st. subst st.
  destruct (reconcile_spec http environ props d w) as (_ & _ & _ & _ & Hu & _).
  destruct (reconcile_finished http environ props d w Hb) as (Hp & -> & ->).
  simpl in Hu. rewrite Hp in Hu. rewrite Hu.
  destruct (external_targets d props) as [Ht Hd].
  rewrite !count_ops_app, stored_ops_map.
  rewrite (count_ops_all (fun op => negb (is_deactivation op))
             (flat_map (external_ops d) props)).
  2:{ eapply Forall_impl; [exact Hd|]. by intros op ->. }
  rewrite (count_ops_none (fun op => negb (is_deactivation op))
             (map _ _)).
  2:{ by intros op (item & <- & _)%in_map_iff. }
  rewrite (count_ops_none is_deactivation (flat_map (external_ops d) props)).
  2:{ intros op Hop. by apply (proj1 (List.Forall_forall _ _) Hd). }
  rewrite (count_ops_all is_deactivation (map _ _)).
  2:{ apply List.Forall_forall. by intros op (item & <- & _)%in_map_iff. }
  rewrite length_map.
  assert (length (flat_map (external_ops d) props)
          = length (List.filter (needs_write d) props)) as ->.
  { by rewrite <- (length_map target), Ht, length_map. }
  split_and!; [done| |done].
  rewrite Nat.add_0_r. apply kept_split.
Qed.

Lemma X5_witness :
  let props := [elm; blank_name; oak_without_id; elm_again] in
  let st := (reconcile always_down ∅ props
               (index_by_appfolio_id [row_7 true; row_9 true]) tt).1 in
  unchanged (stats st) = 2
  /\ count_ops (fun op => negb (is_deactivation op)) (calls st) = 1
  /\ count_ops is_deactivation (calls st) = 1.
Proof.
  intros props st.
  destruct (X5_every_kept_record_counts_once always_down ∅ props
              (index_by_appfolio_id [row_7 true; row_9 true]) tt eq_refl)
    as (Hu & _ & Hd).
  split_and!; [exact Hu | reflexivity | exact Hd].
Defined.

(** ** An empty roster *)

(** X6. When the report comes back without a [results] key, or with an
    empty [results] array, the roster is taken to be empty and the run,
    far from stopping, deactivates every active row of the index, in
    index order, and makes no other call. *)
Theorem X6_empty_roster_deactivates_everything {W : Type}
  (http : request -> W -> bool * W) environ data rows w :
  missing_vars environ = [] ->
  results data = None \/ results data = Some [] ->
  exists st,
    sync_properties http environ (Response data) (Response rows) w
    = Finished st
    /\ appfolio_ids st = ∅
    /\ calls st
       = map (fun item => SetActive item.1 false)
           (List.filter (fun item => active item.2)
              (Dict.items (index_by_appfolio_id rows))).
Proof.
  intros Henv Hres. unfold sync_properties. rewrite Henv. simpl.
  assert (default [] (results data) = []) as -> by (by destruct Hres as [->| ->]).
  destruct (reconcile_finished http environ [] (index_by_appfolio_id rows) w
              eq_refl) as (_ & Hids & Hcalls).
  destruct (reconcile http environ [] (index_by_appfolio_id rows) w)
    as [st b] eqn:E.
  assert (b = true) as ->.
  { change b with (st, b).2. rewrite <- E. reflexivity. }
  exists st. simpl in *. split_and!; [done..|].
  rewrite Hcalls, stored_ops_map. simpl. f_equal.
Qed.

Lemma X6_witness :
  exists st,
    sync_properties always_ok full_environ (Response {| results := None |})
      (Response [row_7 true; row_9 false; row_null; row_9 true]) tt
    = Finished st
    /\ appfolio_ids st = ∅
    /\ calls st = [SetActive "7" false; SetActive "9" false].
Proof.
  exact (X6_empty_roster_deactivates_everything always_ok full_environ
           {| results := None |}
           [row_7 true; row_9 false; row_null; row_9 true] tt
           eq_refl (or_introl eq_refl)).
Defined.

(** ** An address that is not a string *)

Section Abort.
Context {W : Type}.
Variable http : request -> W -> bool * W.
Variable environ : environment.

Lemma loop_external_app d pre post (st : sync_state W) :
  loop_external http environ d (pre ++ post) st
  = match loop_external http environ d pre st with
    | (st', true) => loop_external http environ d post st'
    | (st', false) => (st', false)
    end.
Proof.
  revert st. induction pre as [|p pre IH]; intros st; simpl; [done|].
  destruct (sync_external http environ d st p) as [st'|]; [apply IH | done].
Qed.

Lemma not_a_string_not_strippable p v :
  property_address p = Some v -> (forall s, v ≠ PStr s) -> strippable p = false.
Proof.
  unfold strippable, get_address. intros -> Hv.
  destruct v as [| | |s]; try done. by destruct (Hv s).
Qed.

Lemma string_or_absent_strippable p :
  property_address p = None \/ (exists s, property_address p = Some (PStr s)) ->
  strippable p = true.
Proof.
  unfold strippable, get_address. by intros [->|[s ->]].
Qed.

Lemma abort_at pre p post d w :
  forallb strippable pre = true -> strippable p = false ->
  reconcile http environ (pre ++ p :: post) d w
  = ((loop_external http environ d pre (init_state w)).1, false).
Proof.
  intros Hpre Hp. unfold reconcile. rewrite loop_external_app.
  destruct (loop_external_spec http environ d pre (init_state w)) as (Hb & _).
  rewrite Hpre in Hb.
  destruct (loop_external http environ d pre (init_state w)) as [st b].
  simpl in *. subst b. by rewrite (sync_external_None http environ d st p Hp).
Qed.

(** X7. A record whose [property_address] is present but not a string
    (a JSON null, say) ends the run on the spot: the records before it
    have been handled as usual, their writes included; the record itself
    and the ones after it are not looked at; the deactivation pass does
    not run; and the script exits with status 1 even if no write
    failed. *)
Theorem X7_non_string_address_aborts pre p v post d w :
  Forall (fun q => property_address q = None
                   \/ exists s, property_address q = Some (PStr s)) pre ->
  property_address p = Some v -> (forall s, v ≠ PStr s) ->
  reconcile http environ (pre ++ p :: post) d w
  = ((loop_external http environ d pre (init_state w)).1, false)
  /\ Forall (fun op => is_deactivation op = false)
       (calls (reconcile http environ (pre ++ p :: post) d w).1)
  /\ (forall rows,
        missing_vars environ = [] ->
        exit_code
          (sync_properties http environ
             (Response {| results := Some (pre ++ p :: post) |})
             (Response rows) w)
        = 1%Z).
Proof.
  intros Hpre Hv Hnot.
  assert (forallb strippable pre = true) as Hstr.
  { apply forallb_forall. intros q Hq. apply string_or_absent_strippable.
    by apply (proj1 (List.Forall_forall _ _) Hpre). }
  pose proof (not_a_string_not_strippable p v Hv Hnot) as Hp.
  split_and!.
  - by apply abort_at.
  - rewrite (abort_at pre p post d w Hstr Hp). simpl.
    destruct (loop_external_spec http environ d pre (init_state w))
      as (_ & (Hc & _) & _).
    rewrite Hc. simpl. apply external_targets.
  - intros rows Henv. unfold sync_properties. rewrite Henv. simpl.
    by rewrite (abort_at pre p post (index_by_appfolio_id rows) w Hstr Hp).
Qed.
End Abort.

Lemma X7_witness :
  calls (reconcile always_ok full_environ [elm; null_address; oak_without_id]
           (index_by_appfolio_id [row_9 true]) tt).1
  = [Insert "7" "1 Elm St"]
  /\ exit_code
       (sync_properties always_ok full_environ
          (Response {| results := Some [elm; null_address; oak_without_id] |})
          (Response [row_9 true]) tt)
     = 1%Z.
Proof.
  destruct (X7_non_string_address_aborts always_ok full_environ
              [elm] null_address PNone [oak_without_id]
              (index_by_appfolio_id [row_9 true]) tt) as (Hrun & _ & Hexit).
  - constructor; [right; by eexists | constructor].
  - reflexivity.
  - discriminate.
  - split; [exact (f_equal (fun r => calls r.1) Hrun)
           | exact (Hexit [row_9 true] eq_refl)].
Defined.

(** ** The store after a run *)

(** X9. Once the calls of a run that reached its end have all taken
    effect, the table mirrors the roster when read again: every record
    that passes the guard finds its id on an active row of the new index,
    and every active row of the new index carries the id of such a
    record. *)
Theorem X9_store_mirrors_roster {W : Type} (http : request -> W -> bool * W)
  environ props rows w :
  (first_run http environ props rows w).2 = true ->
  let d' := index_by_appfolio_id (table_after http environ props rows w) in
  (forall p, In p props -> kept p = true ->
             exists x, Dict.get (get_id p) d' = Some x /\ active x = true)
  /\ (forall k e, In (k, e) (Dict.items d') -> active e = true ->
                  exists p, In p props /\ kept p = true /\ get_id p = k).
Proof.
  intros Hfin d'. split.
  - intros p. by apply kept_id_active_after.
  - intros k e Hin He.
    destruct (decide (k ∈ kept_ids props)) as [Hk|Hk];
      [by apply elem_of_kept_ids in Hk|].
    by rewrite (unseen_id_inactive_after http environ props rows w Hfin k e
                  Hin Hk) in He.
Qed.

Lemma X9_witness :
  let props := [elm; blank_name; oak_without_id] in
  let rows := [row_7 false; row_9 true; row_null] in
  let d' := index_by_appfolio_id (table_after always_ok ∅ props rows tt) in
  (exists x, Dict.get "7" d' = Some x /\ active x = true)
  /\ Dict.keys d' = ["7"; "9"; "None"]
  /\ forall e, In ("9", e) (Dict.items d') -> active e = false.
Proof.
  intros props rows d'.
  destruct (X9_store_mirrors_roster always_ok ∅ props rows tt eq_refl)
    as [Hkept Hactive].
  split_and!.
  - apply (Hkept elm); [by left | reflexivity].
  - reflexivity.
  - intros e He. destruct (active e) eqn:Ea; [|reflexivity].
    destruct (Hactive "9" e He Ea) as (p & [<-|[<-|[<-|[]]]] & Hk & Hid);
      vm_compute in Hk, Hid; discriminate.
Defined.

(** ** Rows without an external id *)

Lemma apply_ops_keeps_untargeted ops table r :
  In r table ->
  (forall op, In op ops -> appfolio_id r ≠ Some (target op)) ->
  In r (apply_ops ops table).
Proof.
  unfold apply_ops. revert table.
  induction ops as [|op ops IH]; intros table Hin Hops; simpl; [done|].
  apply IH; [|intros op' Hop'; apply Hops; by right].
  pose proof (Hops op (or_introl eq_refl)) as Hne.
  destruct op as [k a|k b].
  - simpl. apply in_app_iff. by left.
  - by apply set_active_other_rows.
Qed.

(** X12. No call of a run over the index of a table targets the empty
    id, so the rows of the table whose external id is null or empty are
    still there, as they were, once the calls have taken effect. *)
Theorem X12_rows_without_id_left_alone {W : Type}
  (http : request -> W -> bool * W) environ props rows w :
  (forall op, In op (calls (first_run http environ props rows w).1) ->
              target op ≠ "")
  /\ (forall r, In r rows ->
                appfolio_id r = None \/ appfolio_id r = Some "" ->
                In r (table_after http environ props rows w)).
Proof.
  assert (forall op, In op (calls (first_run http environ props rows w).1) ->
                     target op ≠ "") as Htargets.
  { intros op Hin. unfold first_run in Hin.
    destruct (call_origin http environ props (index_by_appfolio_id rows) w
                op Hin) as [(HS & _)|(_ & _ & e & _ & He & _)].
    - by apply (seen_id_nonempty http environ props
                  (index_by_appfolio_id rows) w).
    - apply (dict_In_get _ _ _ (index_wf rows)) in He.
      rewrite index_get in He.
      destruct (truthy (target op)) eqn:Ht; [by apply truthy_spec | done]. }
  split; [done|].
  intros r Hin Hid. unfold table_after.
  apply apply_ops_keeps_untargeted; [done|].
  intros op Hop E. apply (Htargets op Hop).
  destruct Hid as [Hid|Hid]; rewrite Hid in E; [done | by injection E].
Qed.

Lemma X12_witness :
  In row_null
    (table_after always_ok ∅ [elm; oak_without_id]
       [row_null; row_empty; row_9 true] tt)
  /\ In row_empty
       (table_after always_ok ∅ [elm; oak_without_id]
          [row_null; row_empty; row_9 true] tt).
Proof.
  destruct (X12_rows_without_id_left_alone always_ok ∅ [elm; oak_without_id]
              [row_null; row_empty; row_9 true] tt) as [_ Hrows].
  split.
  - apply (Hrows row_null); [by left | by left].
  - apply (Hrows row_empty); [right; by left | by right].
Defined.

(** ** The summary counters *)

Lemma replay_length {W : Type} (http : request -> W -> bool * W) environ ops w :
  length (replay http environ ops w).1 = length ops.
Proof.
  revert w. induction ops as [|op ops IH]; intros w; simpl; [done|].
  destruct (http (request_of environ op) w) as [ok w'].
  specialize (IH w'). destruct (replay http environ ops w'). simpl in *.
  by rewrite IH.
Qed.

Lemma successes_app f ops1 ops2 oks1 oks2 :
  length oks1 = length ops1 ->
  successes f (ops1 ++ ops2) (oks1 ++ oks2)
  = successes f ops1 oks1 + successes f ops2 oks2.
Proof.
  revert oks1. induction ops1 as [|op ops1 IH]; intros [|ok oks1] Hlen;
    simpl in *; try done.
  rewrite IH by lia. lia.
Qed.

Section Tally.
Context {W : Type}.
Variable http : request -> W -> bool * W.
Variable environ : environment.
Implicit Types (st : sync_state W) (d : Dict.t sb_property).

Lemma tallied_refl st st' :
  stats st' = stats st \/ stats st' = incr_unchanged (stats st) ->
  tallied http environ st st' [].
Proof. unfold tallied. intros [->| ->]; simpl; lia. Qed.

Lemma tallied_trans st1 st2 st3 ops1 ops2 :
  world st2 = (replay http environ ops1 (world st1)).2 ->
  tallied http environ st1 st2 ops1 ->
  tallied http environ st2 st3 ops2 ->
  tallied http environ st1 st3 (ops1 ++ ops2).
Proof.
  unfold tallied. intros Hw (Ha1 & Hr1 & Hd1) (Ha2 & Hr2 & Hd2).
  rewrite replay_app. simpl. rewrite <- Hw.
  rewrite !successes_app by apply replay_length. lia.
Qed.

Lemma tallied_write op st :
  tallied http environ st (write http environ op (counter_of op) st) [op].
Proof.
  unfold tallied, write. simpl.
  assert (http (request_of environ op) (world st)
          = match op with
            | Insert k name => insert_property http environ k name (world st)
            | SetActive k b => update_property_status http environ k b (world st)
            end) as <- by (by destruct op).
  destruct (http (request_of environ op) (world st)) as [[] w'];
    destruct op as [k a|k []]; simpl; lia.
Qed.

Lemma sync_external_tallied d st st' p :
  sync_external http environ d st p = Some st' ->
  tallied http environ st st' (external_ops d p).
Proof.
  unfold sync_external, external_ops, kept.
  destruct (get_address p) as [a|]; [|done].
  destruct (truthy (get_id p)), (truthy a); simpl;
    try (intros [= <-]; apply tallied_refl; by left).
  set (st0 := {| stats := stats st;
                 appfolio_ids := {[ get_id p ]} ∪ appfolio_ids st;
                 world := world st; calls := calls st |}).
  destruct (Dict.get (get_id p) d) as [existing|].
  - destruct (active existing); simpl; intros [= <-].
    + apply tallied_refl. by right.
    + exact (tallied_write (SetActive (get_id p) true) st0).
  - intros [= <-]. exact (tallied_write (Insert (get_id p) a) st0).
Qed.

Lemma loop_external_tallied d props st :
  tallied http environ st (loop_external http environ d props st).1
    (flat_map (external_ops d) (processed props)).
Proof.
  revert st. induction props as [|p props IH]; intros st; simpl.
  - apply tallied_refl. by left.
  - destruct (strippable p) eqn:Hp.
    + destruct (sync_external_Some http environ d st p Hp)
        as (st' & E & (_ & _ & _ & Hw & _) & _).
      rewrite E. simpl.
      by apply (tallied_trans st st' _ _ _ Hw (sync_external_tallied d st st' p E)).
    + rewrite (sync_external_None http environ d st p Hp). simpl.
      apply tallied_refl. by left.
Qed.

Lemma sync_stored_tallied st item :
  tallied http environ st (sync_stored http environ st item)
    (stored_ops (appfolio_ids st) item).
Proof.
  destruct item as [k r]. unfold sync_stored, stored_ops. simpl.
  destruct (negb (bool_decide (k ∈ appfolio_ids st)) && active r).
  - exact (tallied_write (SetActive k false) st).
  - apply tallied_refl. by left.
Qed.

Lemma loop_stored_tallied d st :
  tallied http environ st (loop_stored http environ d st)
    (flat_map (stored_ops (appfolio_ids st)) (Dict.items d)).
Proof.
  unfold loop_stored, Dict.items. revert st.
  induction d as [|item d IH]; intros st; simpl.
  - apply tallied_refl. by left.
  - destruct (sync_stored_spec http environ st item)
      as [(_ & _ & _ & Hw & _) Hids].
    specialize (IH (sync_stored http environ st item)). rewrite Hids in IH.
    exact (tallied_trans st _ _ _ _ Hw (sync_stored_tallied st item) IH).
Qed.

(** X10. The success counters of the summary are exact in every run:
    [added] is the number of Insert calls whose write succeeded,
    [reactivated] the number of reactivation calls whose write succeeded,
    and [deactivated] the number of deactivation calls whose write
    succeeded, the results being those the network gave to the calls of
    the run in their order. *)
Theorem X10_success_counters_are_exact props d w :
  let st := (reconcile http environ props d w).1 in
  let oks := (replay http environ (calls st) w).1 in
  added (stats st) = successes is_insertion (calls st) oks
  /\ reactivated (stats st) = successes is_reactivation (calls st) oks
  /\ deactivated (stats st) = successes is_deactivation (calls st) oks.
Proof.
  intros st oks. subst st oks.
  pose proof (reconcile_calls http environ props d w) as Hc. simpl in Hc.
  rewrite Hc. clear Hc.
  unfold reconcile.
  destruct (loop_external_spec http environ d props (init_state w))
    as (_ & (_ & _ & _ & Hw & _) & Hids).
  pose proof (loop_external_tallied d props (init_state w)) as Ht.
  destruct (loop_external http environ d props (init_state w)) as [st b].
  simpl in *. rewrite union_empty_r_L in Hids.
  destruct b; simpl.
  - pose proof (loop_stored_tallied d st) as Ht'. rewrite Hids in Ht'.
    exact (tallied_trans (init_state w) st _ _ _ Hw Ht Ht').
  - rewrite app_nil_r. exact Ht.
Qed.
End Tally.

(** ** The guard, read on the raw record *)

Lemma lstrip_empty s : lstrip s = "" <-> all_space s = true.
Proof.
  induction s as [|c s IH]; simpl; [done|].
  destruct (py_isspace c); simpl; [done|]. split; discriminate.
Qed.

Lemma rstrip_empty s : rstrip s = "" <-> all_space s = true.
Proof.
  induction s as [|c s IH]; simpl; [done|].
  destruct (rstrip s) as [|b t].
  - destruct (py_isspace c); simpl; [|split; discriminate].
    split; intros _; [by apply IH | done].
  - split; [discriminate|]. intros [_ H]%andb_true_iff.
    by apply IH in H.
Qed.

Lemma lstrip_all_space s : all_space (lstrip s) = true -> all_space s = true.
Proof.
  induction s as [|c s IH]; simpl; [done|].
  destruct (py_isspace c) eqn:Ec; simpl; [done|]. by rewrite Ec.
Qed.

Lemma strip_empty s : strip s = "" <-> all_space s = true.
Proof.
  unfold strip. rewrite rstrip_empty. split.
  - apply lstrip_all_space.
  - intros H. by apply lstrip_empty in H as ->.
Qed.

Lemma pretty_N_go_nonempty x s : s ≠ "" -> pretty_N_go x s ≠ "".
Proof.
  revert s. induction (N.lt_wf_0 x) as [x _ IH]; intros s Hs.
  destruct (decide (x = 0)%N) as [->|Hx]; [by rewrite pretty_N_go_0|].
  rewrite pretty_N_go_step by lia. apply IH; [|done].
  apply N.div_lt; lia.
Qed.

Lemma pretty_positive_nonempty (p : positive) : pretty p ≠ "".
Proof.
  unfold pretty, pretty_positive, pretty, pretty_N.
  destruct (decide (N.pos p = 0)%N); [done|].
  rewrite pretty_N_go_step by lia. by apply pretty_N_go_nonempty.
Qed.

Lemma py_str_empty v : py_str v = "" <-> v = PStr "".
Proof.
  split; [|by intros ->].
  destruct v as [|[]|z|s]; simpl; try done.
  - destruct z as [|p|p]; simpl; [done| |done].
    intros H. by destruct (pretty_positive_nonempty p).
  - by intros ->.
Qed.

(** X13. The guard of the first loop, read on the raw record: a record
    is processed exactly when its [property_id] is anything but the empty
    string (a missing or null one included) and its [property_address] is
    a string with at least one character that is not whitespace.  A
    record with an absent, empty or blank address is skipped. *)
Theorem X13_guard_on_raw_record p :
  kept p = true
  <-> property_id p ≠ Some (PStr "")
      /\ exists s, property_address p = Some (PStr s) /\ all_space s = false.
Proof.
  unfold kept, get_id, get_address. split.
  - destruct (property_address p) as [[| | |s]|]; try done.
    + intros [Hid Hs]%andb_true_iff.
      apply truthy_spec in Hid. apply truthy_spec in Hs. split.
      * intros E. rewrite E in Hid. by destruct Hid.
      * exists s. split; [done|]. destruct (all_space s) eqn:Ea; [|done].
        by apply strip_empty in Ea.
    + by intros [_ ?]%andb_true_iff.
  - intros (Hid & s & -> & Hs). apply andb_true_iff. split; apply truthy_spec.
    + intros E%py_str_empty. destruct (property_id p) as [v|]; [|done].
      simpl in E. by subst v.
    + intros E%strip_empty. by rewrite E in Hs.
Qed.

(** ** How many writes a run makes *)

Lemma length_flat_map_le {A B : Type} (f : A -> list B) (l : list A) :
  (forall x, length (f x) <= 1) -> length (flat_map f l) <= length l.
Proof.
  intros Hf. induction l as [|x l IH]; simpl; [done|].
  rewrite length_app. specialize (Hf x). lia.
Qed.

Lemma processed_length props : length (processed props) <= length props.
Proof.
  induction props as [|p props IH]; simpl; [done|].
  destruct (strippable p); simpl; lia.
Qed.

(** X14. A run makes at most one write per record of the external list
    plus one write per item of the store mapping. *)
Theorem X14_at_most_one_write_per_record_and_row {W : Type}
  (http : request -> W -> bool * W) environ props d w :
  length (calls (reconcile http environ props d w).1)
  <= length props + length (Dict.items d).
Proof.
  pose proof (reconcile_calls http environ props d w) as Hc. simpl in Hc.
  rewrite Hc, length_app.
  assert (length (flat_map (external_ops d) (processed props)) <= length props).
  { etrans; [|apply processed_length]. apply length_flat_map_le. intros p.
    destruct (external_ops_cases d p) as [(_ & op & -> & _)|(_ & ->)];
      simpl; lia. }
  assert (length (if (reconcile http environ props d w).2
                  then flat_map (stored_ops (kept_ids (processed props)))
                         (Dict.items d)
                  else []) <= length (Dict.items d)).
  { destruct (reconcile http environ props d w).2; [|simpl; lia].
    apply length_flat_map_le. intros item. unfold stored_ops.
    destruct (negb _ && _); simpl; lia. }
  lia.
Qed.

Lemma X1_witness :
  Dict.get "7" (index_by_appfolio_id ([row_7 false; row_9 true] ++ [row_7 true]))
  = Some (row_7 true).
Proof.
  destruct (X1_index_keeps_last_row [row_7 false; row_9 true] "7")
    as (_ & _ & Hlast).
  apply Hlast; [reflexivity | discriminate].
Defined.

Lemma X13_witness : kept oak_without_id = true /\ kept blank_name = false.
Proof.
  split.
  - apply X13_guard_on_raw_record. split; [discriminate|].
    exists "12 Oak St". split; reflexivity.
  - destruct (kept blank_name) eqn:E; [|reflexivity].
    apply X13_guard_on_raw_record in E as (_ & s & Hs & Hspace).
    injection Hs as <-. vm_compute in Hspace. discriminate.
Defined.
